(** * nscrestc: a Nagios plugin querying the NSClient++ REST API

    Shallow embedding of [nscrestc.go] and proofs about its request
    construction, response interpretation, output line and exit code.

    The program is one [main] function over Go's standard library.  The
    parts of the library whose behaviour is decided by the arguments
    [main] passes (the parsing of the flags, string trimming and
    splitting, query encoding, the JSON decoder driven by the field tags
    of [Query], the dump of the response as far as it touches the body,
    the formatting of numbers) are written out below as executable
    functions; the parts that only produce text for diagnostics or that
    talk to the network are the fields of the class [World], and so is
    the one point at which the JSON decoders of Go toolchains differ. *)

From Stdlib Require Import ZArith NArith String Ascii List Floats DecimalString
  DecimalPos DecimalN.
From stdpp Require Import base option list gmap strings sorting.

Set Warnings "-register-all".
Local Open Scope bool_scope.

(** ** Bytes and strings

    A Go string is a sequence of bytes; [string] with [ascii] characters
    (all 256 values) is that. *)

Definition bytes (s : string) : list ascii := list_ascii_of_string s.
Definition str (l : list ascii) : string := string_of_list_ascii l.
Definition val (c : ascii) : N := N_of_ascii c.

(** *** [unicode/utf8] *)

Module Utf8.

Definition RuneError : N := 0xFFFD.
Definition RuneSelf : N := 0x80.
Definition UTFMax : nat := 4.

(** The information of the table [first] and of [acceptRanges]: an ASCII
    byte, an invalid lead byte, or a lead byte with the size of its
    sequence and the range accepted for the second byte. *)
Inductive lead := AS | XX | Lead (sz : nat) (lo hi : N).

Definition first (b : N) : lead :=
  (if b <? 0x80 then AS
   else if b <? 0xC2 then XX
   else if b <=? 0xDF then Lead 2 0x80 0xBF
   else if b =? 0xE0 then Lead 3 0xA0 0xBF
   else if b <=? 0xEC then Lead 3 0x80 0xBF
   else if b =? 0xED then Lead 3 0x80 0x9F
   else if b <=? 0xEF then Lead 3 0x80 0xBF
   else if b =? 0xF0 then Lead 4 0x90 0xBF
   else if b <=? 0xF3 then Lead 4 0x80 0xBF
   else if b =? 0xF4 then Lead 4 0x80 0x8F
   else XX)%N.

Definition outside (lo hi : N) (c : ascii) : bool :=
  ((val c <? lo) || (hi <? val c))%N.

Definition low (mask : N) (c : ascii) : N := N.land (val c) mask.

(** [utf8.DecodeRuneInString]: the first rune of [p] and its width in
    bytes; [(RuneError, 0)] on the empty string and [(RuneError, 1)] on
    an invalid encoding. *)
Definition DecodeRune (p : list ascii) : N * nat :=
  match p with
  | [] => (RuneError, 0%nat)
  | s0 :: rest =>
    match first (val s0) with
    | AS => (val s0, 1%nat)
    | XX => (RuneError, 1%nat)
    | Lead sz lo hi =>
      if (length p <? sz)%nat then (RuneError, 1%nat) else
      match rest with
      | [] => (RuneError, 1%nat)
      | s1 :: rest1 =>
        if outside lo hi s1 then (RuneError, 1%nat) else
        if (sz <=? 2)%nat
        then (N.lor (N.shiftl (low 0x1F s0) 6) (low 0x3F s1), 2%nat) else
        match rest1 with
        | [] => (RuneError, 1%nat)
        | s2 :: rest2 =>
          if outside 0x80 0xBF s2 then (RuneError, 1%nat) else
          if (sz <=? 3)%nat
          then (N.lor (N.shiftl (low 0x0F s0) 12)
                  (N.lor (N.shiftl (low 0x3F s1) 6) (low 0x3F s2)), 3%nat) else
          match rest2 with
          | [] => (RuneError, 1%nat)
          | s3 :: _ =>
            if outside 0x80 0xBF s3 then (RuneError, 1%nat) else
            (N.lor (N.shiftl (low 0x07 s0) 18)
               (N.lor (N.shiftl (low 0x3F s1) 12)
                  (N.lor (N.shiftl (low 0x3F s2) 6) (low 0x3F s3))), 4%nat)
          end
        end
      end
    end
  end.

(** [utf8.RuneStart]: not a continuation byte. *)
Definition RuneStart (c : ascii) : bool :=
  negb (N.land (val c) 0xC0 =? 0x80)%N.

(** The backwards search of [DecodeLastRuneInString] for the start of
    the last rune: from [start], at most [n] steps down while the byte
    is a continuation byte. *)
Fixpoint back (p : list ascii) (start : nat) (n : nat) : nat :=
  match n with
  | O => start
  | S n' =>
    match start with
    | O => O
    | S start' =>
      match p !! start' with
      | Some c => if RuneStart c then start' else back p start' n'
      | None => start'
      end
    end
  end.

(** [utf8.DecodeLastRuneInString]. *)
Definition DecodeLastRune (p : list ascii) : N * nat :=
  match length p with
  | O => (RuneError, 0%nat)
  | S start =>
    match p !! start with
    | None => (RuneError, 0%nat)
    | Some c =>
      if (val c <? RuneSelf)%N then (val c, 1%nat) else
      let start' := back p start (UTFMax - 1) in
      let '(r, size) := DecodeRune (drop start' p) in
      if (start' + size =? length p)%nat then (r, size) else (RuneError, 1%nat)
    end
  end.

End Utf8.

(** *** [unicode] *)

Module Unicode.

(** [unicode.IsSpace]: the Latin-1 cases of the function and the ranges of
    the table [White_Space] above Latin-1. *)
Definition IsSpace (r : N) : bool :=
  (if r <=? 0xFF
   then (r =? 0x09) || (r =? 0x0A) || (r =? 0x0B) || (r =? 0x0C) || (r =? 0x0D)
        || (r =? 0x20) || (r =? 0x85) || (r =? 0xA0)
   else (r =? 0x1680) || ((0x2000 <=? r) && (r <=? 0x200A))
        || (r =? 0x2028) || (r =? 0x2029) || (r =? 0x202F) || (r =? 0x205F)
        || (r =? 0x3000))%N.

End Unicode.

(** *** [strings] *)

Module Strings.

(** [strings.TrimLeftFunc (s, unicode.IsSpace)]: [n] bounds the number of
    runes looked at. *)
Fixpoint trimLeft (n : nat) (p : list ascii) : list ascii :=
  match n with
  | O => p
  | S n' =>
    match p with
    | [] => []
    | _ =>
      let '(r, size) := Utf8.DecodeRune p in
      if Unicode.IsSpace r then trimLeft n' (drop size p) else p
    end
  end.

(** [strings.TrimRightFunc (s, unicode.IsSpace)]. *)
Fixpoint trimRight (n : nat) (p : list ascii) : list ascii :=
  match n with
  | O => p
  | S n' =>
    match p with
    | [] => []
    | _ =>
      let '(r, size) := Utf8.DecodeLastRune p in
      if Unicode.IsSpace r then trimRight n' (take (length p - size) p) else p
    end
  end.

(** [strings.TrimSpace]: all leading and trailing white space, as Unicode
    defines it, removed. *)
Definition TrimSpace (s : string) : string :=
  let p := bytes s in
  let q := trimLeft (length p) p in
  str (trimRight (length q) q).

(** [strings.Index (s, sep)]: where [sep] first occurs in [s]. *)
Definition Index (s sep : string) : option nat := String.index 0 sep s.

(** The loop of [genSplit]: at most [cuts] times, the part of [s] before
    the first [sep] is split off. *)
Fixpoint pieces (cuts : nat) (s sep : string) : list string :=
  match cuts with
  | O => [s]
  | S cuts' =>
    match Index s sep with
    | None => [s]
    | Some m =>
      substring 0 m s ::
      pieces cuts' (substring (m + String.length sep)
                      (String.length s - (m + String.length sep)) s) sep
    end
  end.

(** The UTF-8 sequences of [p], an invalid byte a sequence of its own. *)
Fixpoint sequences (n : nat) (p : list ascii) : list (list ascii) :=
  match n with
  | O => []
  | S n' =>
    match p with
    | [] => []
    | _ :: _ =>
      let size := (Utf8.DecodeRune p).2 in
      take size p :: sequences n' (drop size p)
    end
  end.

(** [explode]: [s] split into UTF-8 sequences, at most [n] substrings
    (all of them for a negative [n]), the last one the remainder. *)
Definition explode (s : string) (n : Z) : list string :=
  let seqs := sequences (String.length s) (bytes s) in
  let l := Z.of_nat (length seqs) in
  let n := (if (n <? 0) || (l <? n) then l else n)%Z in
  if (n =? 0)%Z then []
  else (str <$> take (Z.to_nat (n - 1)) seqs)
         ++ [str (concat (drop (Z.to_nat (n - 1)) seqs))].

(** [strings.SplitN (s, sep, n)]: [s] split around [sep] into at most
    [n] substrings, the last one the unsplit remainder; all substrings
    for a negative [n], none for [n = 0].  (For a negative [n] Go counts
    the separators first; splitting until none is left comes to the
    same.) *)
Definition SplitN (s sep : string) (n : Z) : list string :=
  if (n =? 0)%Z then []
  else if (String.length sep =? 0)%nat then explode s n
  else
    let n := (if n <? 0 then Z.of_nat (String.length s) + 1 else n)%Z in
    let n := Z.min n (Z.of_nat (String.length s) + 1)%Z in
    pieces (Z.to_nat (n - 1)%Z) s sep.

End Strings.


(** *** [net/url] *)

Module Url.

Definition isAlnum (c : ascii) : bool :=
  let n := val c in
  (((0x61 <=? n) && (n <=? 0x7A)) || ((0x41 <=? n) && (n <=? 0x5A))
   || ((0x30 <=? n) && (n <=? 0x39)))%N.

(** [shouldEscape (c, encodeQueryComponent)]: only letters, digits and
    the marks [-_.~] are left as they are. *)
Definition shouldEscape (c : ascii) : bool :=
  if isAlnum c then false
  else if (Ascii.eqb c "-" || Ascii.eqb c "_" || Ascii.eqb c "." || Ascii.eqb c "~")
  then false else true.

Definition upperhex (n : N) : ascii :=
  ascii_of_N (if n <? 10 then 0x30 + n else 0x41 + (n - 10))%N.

(** [url.QueryEscape]. *)
Fixpoint QueryEscape (s : string) : string :=
  match s with
  | EmptyString => EmptyString
  | String c s' =>
    if Ascii.eqb c " " then String "+" (QueryEscape s')
    else if shouldEscape c
    then String "%" (String (upperhex (N.shiftr (val c) 4))
                       (String (upperhex (N.land (val c) 15)) (QueryEscape s')))
    else String c (QueryEscape s')
  end.

(** [url.Values] is [map[string][]string]. *)
Abbreviation Values := (gmap string (list string)).

(** [Values.Add]: [v[key] = append (v[key], value)]. *)
Definition Add (v : Values) (key value : string) : Values :=
  <[key := default [] (v !! key) ++ [value]]> v.

(** One step of the inner loop of [Values.Encode] on the buffer. *)
Definition writePair (keyEscaped : string) (buf : string) (value : string) : string :=
  (if (String.length buf =? 0)%nat then buf else buf +:+ "&")
    +:+ keyEscaped +:+ "=" +:+ QueryEscape value.

(** [Values.Encode]: the keys in sorted order, and under each key its
    values in the order they were added. *)
Definition Encode (v : Values) : string :=
  let keys := merge_sort String.le (elements (dom v)) in
  foldl (fun buf k => foldl (writePair (QueryEscape k)) buf (default [] (v !! k)))
        EmptyString keys.

(** [url.URL]; [main] writes [Path] and [RawQuery] and passes the other
    fields on as [url.Parse] filled them. *)
Record URL := mkURL {
  Scheme : string;
  Opaque : string;
  User : option string;
  Host : string;
  Path : string;
  RawPath : string;
  RawQuery : string;
  Fragment : string
}.

End Url.

(** ** The response structure *)

(** A Go slice: the elements up to its length, and the elements of its
    backing array between length and capacity, which a later decode into
    the same slice uncovers. *)
Record slice (T : Type) := Slice { elems :> list T; spare : list T }.
Arguments Slice {T} _ _.
Arguments elems {T} _.
Arguments spare {T} _.

(** A nil slice, or one of length and capacity 0. *)
Definition nilSlice {T} : slice T := Slice [] [].

(** The anonymous struct of the field [IntValue]; a [*float64] or
    [*string] is [None] when nil. *)
Record IntValue := mkIntValue {
  Value : option float;
  Unit : option string;
  Warning : option float;
  Critical : option float;
  Minimum : option float;
  Maximum : option float
}.

Record Perf := mkPerf {
  Alias : string;
  IntValue_ : IntValue
}.

Record Line := mkLine {
  Message : string;
  Perf_ : slice Perf
}.

Record PayloadEntry := mkPayloadEntry {
  Command : string;
  Lines : slice Line;
  Result : string
}.

Record Header := mkHeader { SourceID : string }.

(** [Query] represents the nsclient response. *)
Record Query := mkQuery {
  Header_ : Header;
  Payload : slice PayloadEntry
}.

(** The zero values, as [new (Query)] allocates them. *)
Definition zeroIntValue : IntValue := mkIntValue None None None None None None.
Definition zeroPerf : Perf := mkPerf "" zeroIntValue.
Definition zeroLine : Line := mkLine "" nilSlice.
Definition zeroPayloadEntry : PayloadEntry := mkPayloadEntry "" nilSlice "".
Definition zeroQuery : Query := mkQuery (mkHeader "") nilSlice.

(** ** [encoding/json]

    What [Decoder.Decode] does to a [*Query], which the field tags of
    [Query] decide.  The decoder first scans one complete JSON value off
    the stream and only then stores it, so the response body enters as
    that first value, or as [None] when the stream does not begin with a
    well-formed value. *)

Module Json.

(** A JSON value.  A number literal is carried as the [float64] that
    [strconv.ParseFloat] reads from it; an infinite one stands for a
    literal out of range, which [ParseFloat] reports as an error. *)
Inductive value :=
| Null
| Bool (b : bool)
| Number (n : float)
| String_ (s : string)
| Array (l : list value)
| Object (members : list (string * value)).

(** The errors of the decoder: of the scanner, and of a value that does
    not fit the Go type it is meant for (the JSON kind and the Go kind). *)
Inductive error :=
| SyntaxError
| UnmarshalTypeError (Value GoType : string).

(** The decoder state [decodeState]: its field [savedError]. *)
Definition D (A : Type) : Type := option error -> A * option error.

Definition ret {A} (a : A) : D A := fun s => (a, s).
Definition bind {A B} (m : D A) (f : A -> D B) : D B :=
  fun s => let '(a, s') := m s in f a s'.

(** [decodeState.saveError]: only the first error is kept. *)
Definition saveError (e : error) : D unit :=
  fun s => (tt, match s with None => Some e | Some _ => s end).

Notation "'do' x <- m ; k" := (bind m (fun x => k))
  (at level 10, x name, m at level 100, k at level 200).

Definition kind (j : value) : string :=
  match j with
  | Null => "null" | Bool _ => "bool" | Number _ => "number"
  | String_ _ => "string" | Array _ => "array" | Object _ => "object"
  end.

(** *** Matching a member name with a field *)

Definition upper (c : ascii) : ascii :=
  if ((0x61 <=? val c) && (val c <=? 0x7A))%N then ascii_of_N (val c - 0x20) else c.

(** [foldName]: ASCII letters in upper case, and the two runes outside
    ASCII whose case orbit contains an ASCII letter, U+017F (long s) and
    U+212A (Kelvin sign), as that letter.  Every other rune outside ASCII
    folds to a rune outside ASCII and is left as it is here: no field
    name of [Query] contains one, so it matches none either way. *)
Fixpoint foldName (s : list ascii) : list ascii :=
  match s with
  | [] => []
  | c :: rest =>
    match rest with
    | c1 :: rest1 =>
      if ((val c =? 0xC5) && (val c1 =? 0xBF))%N
      then ("S"%char : ascii) :: foldName rest1
      else match rest1 with
           | c2 :: rest2 =>
             if ((val c =? 0xE2) && (val c1 =? 0x84) && (val c2 =? 0xAA))%N
             then ("K"%char : ascii) :: foldName rest2
             else upper c :: foldName rest
           | [] => upper c :: foldName rest
           end
    | [] => [upper c]
    end
  end.

(** The field for a member name: an exact match, else a match of the
    folded names; for the field names of [Query] the second subsumes
    the first. *)
Definition matches (name key : string) : bool :=
  if decide (foldName (bytes key) = foldName (bytes name)) then true else false.

(** *** Storing a value *)

(** What the decoder does with a number literal outside the range of
    [float64], for which [strconv.ParseFloat] returns an infinity and a
    range error, depends on the Go toolchain the program is built with:
    the classic decoder of [encoding/json] stores nothing, and one built
    on the v2 implementation of the package stores the infinity.  Both
    report the literal as an error. *)
Class Decoder := { StoresInfinity : bool }.

Section Values.

Context {toolchain : Decoder}.

(** A literal into a Go [string]. *)
Definition decode_string (v : string) (j : value) : D string :=
  match j with
  | Null => ret v
  | String_ s => ret s
  | _ => do _ <- saveError (UnmarshalTypeError (kind j) "string"); ret v
  end.

(** A literal into a Go [float64]. *)
Definition decode_float64 (v : float) (j : value) : D float :=
  match j with
  | Null => ret v
  | Number n =>
    if is_finite n then ret n
    else do _ <- saveError (UnmarshalTypeError "number" "float64");
         ret (if StoresInfinity then n else v)
  | _ => do _ <- saveError (UnmarshalTypeError (kind j) "float64"); ret v
  end.

(** A value into a pointer field ([indirect]): [null] sets the pointer to
    nil; for any other value a nil pointer is first set to a new zero
    value, and the value is then stored through it, whether or not it
    fits. *)
Definition decode_ptr {T} (zero : T) (dec : T -> value -> D T)
    (p : option T) (j : value) : D (option T) :=
  match j with
  | Null => ret None
  | _ => do x <- dec (default zero p) j; ret (Some x)
  end.

(** The loop of [decodeState.array] over the elements: the i-th one is
    stored into the i-th element of the backing array, a new zero
    element past its capacity. *)
Fixpoint decode_elems {T} (zero : T) (dec : T -> value -> D T)
    (backing : list T) (js : list value) : D (list T) :=
  match js with
  | [] => ret []
  | j :: js' =>
    do x <- dec (hd zero backing) j;
    do xs <- decode_elems zero dec (tl backing) js';
    ret (x :: xs)
  end.

(** A value into a slice: [null] makes it nil, an empty array a new
    empty slice, and an array its elements one by one. *)
Definition decode_slice {T} (zero : T) (dec : T -> value -> D T)
    (v : slice T) (j : value) : D (slice T) :=
  match j with
  | Null => ret nilSlice
  | Array [] => ret nilSlice
  | Array js =>
    let backing := elems v ++ spare v in
    do xs <- decode_elems zero dec backing js;
    ret (Slice xs (drop (length js) backing))
  | _ => do _ <- saveError (UnmarshalTypeError (kind j) "slice"); ret v
  end.

(** The loop of [decodeState.object] over the members, in their order;
    [field] stores one member and leaves [v] as it is for a name that
    matches no field. *)
Fixpoint decode_members {T} (field : string -> value -> T -> D T)
    (members : list (string * value)) (v : T) : D T :=
  match members with
  | [] => ret v
  | (key, j) :: rest => do v' <- field key j v; decode_members field rest v'
  end.

(** A value into a struct. *)
Definition decode_struct {T} (field : string -> value -> T -> D T)
    (v : T) (j : value) : D T :=
  match j with
  | Null => ret v
  | Object members => decode_members field members v
  | _ => do _ <- saveError (UnmarshalTypeError (kind j) "struct"); ret v
  end.

(** *** The fields of [Query], by their tags *)

Definition field_IntValue (key : string) (j : value) (v : IntValue) : D IntValue :=
  let '(mkIntValue val_ unit_ warn crit min max) := v in
  if matches "value" key then
    do x <- decode_ptr 0%float decode_float64 val_ j; ret (mkIntValue x unit_ warn crit min max)
  else if matches "unit" key then
    do x <- decode_ptr "" decode_string unit_ j; ret (mkIntValue val_ x warn crit min max)
  else if matches "warning" key then
    do x <- decode_ptr 0%float decode_float64 warn j; ret (mkIntValue val_ unit_ x crit min max)
  else if matches "critical" key then
    do x <- decode_ptr 0%float decode_float64 crit j; ret (mkIntValue val_ unit_ warn x min max)
  else if matches "mininum" key then
    do x <- decode_ptr 0%float decode_float64 min j; ret (mkIntValue val_ unit_ warn crit x max)
  else if matches "maximum" key then
    do x <- decode_ptr 0%float decode_float64 max j; ret (mkIntValue val_ unit_ warn crit min x)
  else ret v.

Definition decode_IntValue : IntValue -> value -> D IntValue :=
  decode_struct field_IntValue.

Definition field_Perf (key : string) (j : value) (v : Perf) : D Perf :=
  if matches "alias" key then
    do x <- decode_string (Alias v) j; ret (mkPerf x (IntValue_ v))
  else if matches "int_value" key then
    do x <- decode_IntValue (IntValue_ v) j; ret (mkPerf (Alias v) x)
  else ret v.

Definition decode_Perf : Perf -> value -> D Perf := decode_struct field_Perf.

Definition field_Line (key : string) (j : value) (v : Line) : D Line :=
  if matches "message" key then
    do x <- decode_string (Message v) j; ret (mkLine x (Perf_ v))
  else if matches "perf" key then
    do x <- decode_slice zeroPerf decode_Perf (Perf_ v) j; ret (mkLine (Message v) x)
  else ret v.

Definition decode_Line : Line -> value -> D Line := decode_struct field_Line.

Definition field_PayloadEntry (key : string) (j : value) (v : PayloadEntry)
    : D PayloadEntry :=
  if matches "command" key then
    do x <- decode_string (Command v) j; ret (mkPayloadEntry x (Lines v) (Result v))
  else if matches "lines" key then
    do x <- decode_slice zeroLine decode_Line (Lines v) j;
    ret (mkPayloadEntry (Command v) x (Result v))
  else if matches "result" key then
    do x <- decode_string (Result v) j; ret (mkPayloadEntry (Command v) (Lines v) x)
  else ret v.

Definition decode_PayloadEntry : PayloadEntry -> value -> D PayloadEntry :=
  decode_struct field_PayloadEntry.

Definition field_Header (key : string) (j : value) (v : Header) : D Header :=
  if matches "source_id" key then
    do x <- decode_string (SourceID v) j; ret (mkHeader x)
  else ret v.

Definition decode_Header : Header -> value -> D Header := decode_struct field_Header.

Definition field_Query (key : string) (j : value) (v : Query) : D Query :=
  if matches "header" key then
    do x <- decode_Header (Header_ v) j; ret (mkQuery x (Payload v))
  else if matches "payload" key then
    do x <- decode_slice zeroPayloadEntry decode_PayloadEntry (Payload v) j;
    ret (mkQuery (Header_ v) x)
  else ret v.

Definition decode_Query : Query -> value -> D Query := decode_struct field_Query.

(** [json.NewDecoder (body).Decode (v)]: the structure after the call
    and the error the call returns.  A stream that does not begin with a
    well-formed value is a syntax error (or [io.EOF]) and leaves [v]
    untouched. *)
Definition Decode (body : option value) (v : Query) : Query * option error :=
  match body with
  | None => (v, Some SyntaxError)
  | Some j => decode_Query v j None
  end.

End Values.

End Json.


(** ** The process and its surroundings *)

(** The line feed that [fmt.Println] and the formats of [main] end in. *)
Definition nl : string := String (ascii_of_N 10) EmptyString.

(** What the command line leaves behind after [flag.Parse]: the program
    name [os.Args[0]], the values of the five flags, the names of the
    flags that were set, as [flag.Visit] visits them, and the positional
    arguments [flag.Args ()]. *)
Record CommandLine := mkCommandLine {
  Args0 : string;
  flagURL : string;
  flagPassword : string;
  flagTimeout : Z;
  flagVerbose : bool;
  flagInsecure : bool;
  visited : list string;
  Args : list string
}.

(** [http.Transport] and [http.Client], by the fields [main] sets;
    durations are [int64] nanoseconds. *)
Record Transport := mkTransport {
  InsecureSkipVerify : bool;
  TLSHandshakeTimeout : Z
}.

Record Client := mkClient {
  Timeout : Z;
  Transport_ : Transport
}.

(** Multiplication of [time.Duration], an [int64], wraps around. *)
Definition wrap64 (z : Z) : Z := (z + 2 ^ 63) `mod` 2 ^ 64 - 2 ^ 63.
Definition Second : Z := 1000000000.
Definition seconds (n : Z) : Z := wrap64 (Second * n).

(** The library calls of [main] whose results the program only passes on
    or prints.  An [error] is carried as its text, [err.Error ()]. *)
Class World := {
  Request : Type;
  Response : Type;
  (** [url.Parse] *)
  Parse : string -> Url.URL + string;
  (** [URL.String] *)
  URLString : Url.URL -> string;
  (** [http.NewRequest (method, url, nil)] *)
  NewRequest : string -> string -> Request + string;
  (** [req.Header.Add (key, value)] *)
  HeaderAdd : Request -> string -> string -> Request;
  (** [httputil.DumpRequestOut (req, body)] *)
  DumpRequestOut : Request -> bool -> string * option string;
  (** [Client.Do]: the one exchange with the agent *)
  Do : Client -> Request -> Response + string;
  (** reading [res.Body] to its end and closing it, as [drainBody] of
      [httputil] does: the error of that, if there is one *)
  DrainBody : Response -> option string;
  (** [Response.Write] into a buffer, of a response whose body is
      drained: the dump or the error *)
  WriteResponse : Response -> bool -> string + string;
  (** what the JSON decoder finds on [res.Body] when nothing has read
      from it: the first JSON value of the body, [None] when there is
      none to be read before the body ends or fails *)
  Body : Response -> option Json.value;
  (** the JSON decoder of the toolchain *)
  JsonDecoder : Json.Decoder;
  (** the verb [%q] of [fmt] on a byte slice or a string *)
  Quote : string -> string;
  (** [strconv.ParseInt (s, 0, strconv.IntSize)]: the number, or the
      error as package [flag] reports it, [parse error] or
      [value out of range] *)
  ParseInt : string -> Z + string;
  (** the verb [%+v] of [fmt] on a [*Query] *)
  PlusV : Query -> string;
  (** [strconv.FormatFloat (f, fmt, prec, bitSize)] *)
  FormatFloat : float -> ascii -> Z -> Z -> string;
  (** what [flag.PrintDefaults] writes for the five flags *)
  Defaults : string
}.

#[global] Existing Instance JsonDecoder.

(** A call registered with [defer]; [main] has one, [res.Body.Close ()]. *)
Inductive deferred := BodyClose.

(** The state of the running process: what it has written to standard
    output and standard error, one entry per call of a print function,
    and its stack of deferred calls. *)
Record proc := mkProc {
  stdout : list string;
  stderr : list string;
  defers : list deferred
}.

(** A statement either goes on to the next one or ends the process
    with [os.Exit]. *)
Inductive step (A : Type) :=
| Next (a : A)
| Exit (code : Z).
Arguments Next {A} _.
Arguments Exit {A} _.

Definition M (A : Type) : Type := proc -> step A * proc.

Definition mret {A} (a : A) : M A := fun p => (Next a, p).

Definition mbind {A B} (m : M A) (f : A -> M B) : M B :=
  fun p => match m p with
           | (Next a, p') => f a p'
           | (Exit code, p') => (Exit code, p')
           end.

Notation "m >> k" := (mbind m (fun _ => k))
  (at level 62, right associativity).

Definition skip : M unit := mret tt.

(** [os.Exit (code)]: the process ends there. *)
Definition osExit {A} (code : Z) : M A := fun p => (Exit code, p).

Definition print (s : string) : M unit :=
  fun p => (Next tt, mkProc (stdout p ++ [s]) (stderr p) (defers p)).

Definition eprint (s : string) : M unit :=
  fun p => (Next tt, mkProc (stdout p) (stderr p ++ [s]) (defers p)).

(** [fmt.Println (s)] *)
Definition Println (s : string) : M unit := print (s +:+ nl).

(** [defer f ()] *)
Definition defer (f : deferred) : M unit :=
  fun p => (Next tt, mkProc (stdout p) (stderr p) (f :: defers p)).

(** [for _, x := range l { body x }] *)
Fixpoint forEach {A} (l : list A) (body : A -> M unit) : M unit :=
  match l with
  | [] => skip
  | x :: l' => body x >> forEach l' body
  end.

(** How the process ended: its exit status, its output, and of the
    deferred calls those that ran and those that never did. *)
Record outcome := mkOutcome {
  exitCode : Z;
  out : list string;
  err : list string;
  ran : list deferred;
  pending : list deferred
}.

(** The Go runtime around [main]: when [main] returns, its deferred
    calls run, last one first, and the process ends with status 0;
    [os.Exit] ends it at once and deferred calls are not run. *)
Definition run (m : M unit) : outcome :=
  match m (mkProc [] [] []) with
  | (Next _, p) => mkOutcome 0 (stdout p) (stderr p) (defers p) []
  | (Exit code, p) => mkOutcome code (stdout p) (stderr p) [] (defers p)
  end.

(** ** The program *)

Section Program.

Context {W : World}.

(** *** The command line: lines 74 to 78 and 87

    [flag.Parse ()] goes through [os.Args[1:]] with [FlagSet.parseOne]
    until an argument is no flag; the flag set of the command line ends
    the process on an error ([flag.ExitOnError]). *)

(** The kinds of flags the program defines. *)
Inductive flagKind := StringFlag | IntFlag | BoolFlag.

(** Lines 74 to 78: the flags by name. *)
Definition formal (name : string) : option flagKind :=
  if decide (name = "u") then Some StringFlag
  else if decide (name = "p") then Some StringFlag
  else if decide (name = "t") then Some IntFlag
  else if decide (name = "v") then Some BoolFlag
  else if decide (name = "k") then Some BoolFlag
  else None.

(** The variables of lines 68 to 72 with the defaults of lines 74 to 78,
    before [flag.Parse]. *)
Definition defaults (arg0 : string) : CommandLine :=
  mkCommandLine arg0 EmptyString EmptyString 10 false false [] [].

(** [strconv.ParseBool] *)
Definition ParseBool (s : string) : option bool :=
  if bool_decide (s ∈ ["1"; "t"; "T"; "TRUE"; "true"; "True"]) then Some true
  else if bool_decide (s ∈ ["0"; "f"; "F"; "FALSE"; "false"; "False"]) then Some false
  else None.

(** [Value.Set] of the flag [name]: the variable of the flag set from
    the text [value], or the error. *)
Definition assign (cl : CommandLine) (name value : string) : CommandLine + string :=
  let '(mkCommandLine arg0 u p t v k seen args) := cl in
  if decide (name = "u") then inl (mkCommandLine arg0 value p t v k seen args)
  else if decide (name = "p") then inl (mkCommandLine arg0 u value t v k seen args)
  else if decide (name = "t") then
    match ParseInt value with
    | inl n => inl (mkCommandLine arg0 u p n v k seen args)
    | inr e => inr e
    end
  else if decide (name = "v") then
    match ParseBool value with
    | Some b => inl (mkCommandLine arg0 u p t b k seen args)
    | None => inr "parse error"
    end
  else if decide (name = "k") then
    match ParseBool value with
    | Some b => inl (mkCommandLine arg0 u p t v b seen args)
    | None => inr "parse error"
    end
  else inl cl.

(** The loop [for i := 1; i < len (name); i++] of [parseOne]: where the
    first [=] of [name] after its first byte is. *)
Fixpoint equalsFrom (i : nat) (rest : string) : option nat :=
  match rest with
  | EmptyString => None
  | String c rest' => if Ascii.eqb c "=" then Some i else equalsFrom (S i) rest'
  end.

(** The name of the flag and, for the form [-name=value], the value. *)
Definition nameValue (name : string) : string * option string :=
  match name with
  | EmptyString => (name, None)
  | String _ rest =>
    match equalsFrom 1 rest with
    | Some i => (substring 0 i name, Some (substring (S i) (String.length name - S i) name))
    | None => (name, None)
    end
  end.

(** How [flag.Parse] ends: it returns, with the command line parsed, or
    it has printed the usage for [-h] or [-help], or an error and the
    usage. *)
Inductive parsed :=
| Parsed (cl : CommandLine)
| Help
| Failed (message : string).

(** What [flag.Parse] leaves behind when it returns: the flags that were
    set, in the order in which [flag.Visit] visits them, that of their
    names, and the arguments that are left. *)
Definition finish (cl : CommandLine) (actual : gset string) (args : list string)
    : CommandLine :=
  mkCommandLine (Args0 cl) (flagURL cl) (flagPassword cl) (flagTimeout cl)
    (flagVerbose cl) (flagInsecure cl) (merge_sort String.le (elements actual)) args.

(** The loop of [FlagSet.Parse] over [parseOne]. *)
Fixpoint parseArgs (cl : CommandLine) (actual : gset string) (args : list string)
    : parsed :=
  match args with
  | [] => Parsed (finish cl actual [])
  | s :: rest =>
    if (String.length s <? 2)%nat || negb (bool_decide (String.get 0 s = Some "-"%char))
    then Parsed (finish cl actual args)
    else
      let numMinuses := if bool_decide (String.get 1 s = Some "-"%char) then 2%nat else 1%nat in
      if (numMinuses =? 2)%nat && (String.length s =? 2)%nat
      then Parsed (finish cl actual rest)
      else
        let name := substring numMinuses (String.length s - numMinuses) s in
        if (String.length name =? 0)%nat
           || bool_decide (String.get 0 name = Some "-"%char)
           || bool_decide (String.get 0 name = Some "="%char)
        then Failed ("bad flag syntax: " +:+ s)
        else
          let '(name, value) := nameValue name in
          match formal name with
          | None =>
            if bool_decide (name = "help") || bool_decide (name = "h") then Help
            else Failed ("flag provided but not defined: -" +:+ name)
          | Some BoolFlag =>
            match value with
            | Some v =>
              match assign cl name v with
              | inl cl' => parseArgs cl' ({[name]} ∪ actual) rest
              | inr e =>
                Failed ("invalid boolean value " +:+ Quote v +:+ " for -" +:+ name
                        +:+ ": " +:+ e)
              end
            | None =>
              match assign cl name "true" with
              | inl cl' => parseArgs cl' ({[name]} ∪ actual) rest
              | inr e => Failed ("invalid boolean flag " +:+ name +:+ ": " +:+ e)
              end
            end
          | Some _ =>
            match value with
            | Some v =>
              match assign cl name v with
              | inl cl' => parseArgs cl' ({[name]} ∪ actual) rest
              | inr e =>
                Failed ("invalid value " +:+ Quote v +:+ " for flag -" +:+ name
                        +:+ ": " +:+ e)
              end
            | None =>
              match rest with
              | [] => Failed ("flag needs an argument: -" +:+ name)
              | v :: rest' =>
                match assign cl name v with
                | inl cl' => parseArgs cl' ({[name]} ∪ actual) rest'
                | inr e =>
                  Failed ("invalid value " +:+ Quote v +:+ " for flag -" +:+ name
                          +:+ ": " +:+ e)
                end
              end
            end
          end
  end.

(** [flag.Usage]: lines as [commandLineUsage] writes them. *)
Definition usage (arg0 : string) : M unit :=
  eprint ("Usage of " +:+ arg0 +:+ ":" +:+ nl) >>
  eprint Defaults.

(** Line 87, [flag.Parse ()] on [os.Args]: the command line it leaves
    behind; for [-h] or [-help] the usage and exit status 0; for an
    error the message, the usage and exit status 2, all on standard
    error. *)
Definition flagParse (arg0 : string) (arguments : list string) : M CommandLine :=
  match parseArgs (defaults arg0) ∅ arguments with
  | Parsed cl => mret cl
  | Help => usage arg0 >> osExit 0
  | Failed message => eprint (message +:+ nl) >> usage arg0 >> osExit 2
  end.

(** Lines 80 to 85. *)
Definition ReturncodeMap : gmap string Z :=
  {[ "OK" := 0; "WARNING" := 1; "CRITICAL" := 2; "UNKNOWN" := 3 ]}%Z.

(** [m[key]] on a Go map: the zero value for a key that is absent. *)
Definition index {V} (zero : V) (m : gmap string V) (key : string) : V :=
  default zero (m !! key).

(** Lines 88 to 91: [seen] after [flag.Visit]. *)
Definition seenFlags (cl : CommandLine) : gmap string bool :=
  foldl (fun seen name => <[name := true]> seen) ∅ (visited cl).

(** Lines 92 to 99. *)
Definition required (cl : CommandLine) : M unit :=
  forEach ["u"; "p"] (fun req =>
    if negb (index false (seenFlags cl) req) then
      eprint ("UNKNOWN: Missing required -" +:+ req +:+ " argument" +:+ nl) >>
      eprint ("Usage of " +:+ Args0 cl +:+ ":" +:+ nl) >>
      eprint Defaults >>
      osExit 3
    else skip).

(** Lines 118 to 124, the body of the loop over the arguments after the
    first.  (The test of [err] at lines 125 to 128 reads the error of
    [url.Parse], which is nil once line 106 is passed.) *)
Definition parameter (parameters : Url.Values) (a : string) : Url.Values :=
  match Strings.SplitN a "=" 2 with
  | [p0] => Url.Add parameters p0 ""
  | p0 :: p1 :: _ => Url.Add parameters p0 p1
  | [] => parameters
  end.

Definition setPath (u : Url.URL) (path : string) : Url.URL :=
  Url.mkURL (Url.Scheme u) (Url.Opaque u) (Url.User u) (Url.Host u) path
    (Url.RawPath u) (Url.RawQuery u) (Url.Fragment u).

Definition setRawQuery (u : Url.URL) (query : string) : Url.URL :=
  Url.mkURL (Url.Scheme u) (Url.Opaque u) (Url.User u) (Url.Host u) (Url.Path u)
    (Url.RawPath u) query (Url.Fragment u).

(** Lines 107 to 131. *)
Definition target (urlStruct : Url.URL) (args : list string) : Url.URL :=
  match args with
  | [] => setPath urlStruct (Url.Path urlStruct +:+ "/")
  | [arg0] => setPath urlStruct (Url.Path urlStruct +:+ "/query/" +:+ arg0)
  | arg0 :: rest =>
    let urlStruct := setPath urlStruct (Url.Path urlStruct +:+ "/query/" +:+ arg0) in
    let parameters := foldl parameter ∅ rest in
    setRawQuery urlStruct (Url.Encode parameters)
  end.

(** Lines 133 to 142. *)
Definition client (cl : CommandLine) : Client :=
  mkClient (seconds (flagTimeout cl))
    (mkTransport (flagInsecure cl) (seconds (flagTimeout cl))).

(** Lines 151 to 157. *)
Definition dumpRequest (cl : CommandLine) (req : Request) : M unit :=
  if flagVerbose cl then
    let '(dumpreq, err) := DumpRequestOut req true in
    (match err with
     | Some e => print ("REQUEST-ERROR:" +:+ nl +:+ e +:+ nl)
     | None => skip
     end) >>
    print ("REQUEST:" +:+ nl +:+ Quote dumpreq +:+ nl)
  else skip.

(** [httputil.DumpResponse (res, body)].  With [body] it first reads the
    body to its end, closes it and puts a copy in its place
    ([drainBody]); when that fails it returns the error and no dump, and
    the body stays where the failed read left it.  The dump is what
    [Response.Write] writes into a buffer; when that fails the dump is
    nil too. *)
Definition DumpResponse (res : Response) (body : bool) : string * option string :=
  match (if body then DrainBody res else None) with
  | Some e => (EmptyString, Some e)
  | None =>
    match WriteResponse res body with
    | inl dump => (dump, None)
    | inr e => (EmptyString, Some e)
    end
  end.

(** What the decoder of line 178 finds on [res.Body].  A quiet run has
    not read from it.  A verbose run has called [httputil.DumpResponse]
    (line 166): when the body could be read to its end, a copy of it is
    in its place and the decoder finds what it would have found; when
    the read failed, the body is used up as far as it went, every
    further read fails too, and the decoder finds nothing. *)
Definition remaining (cl : CommandLine) (res : Response) : option Json.value :=
  if flagVerbose cl then
    match DrainBody res with
    | Some _ => None
    | None => Body res
    end
  else Body res.

(** Lines 165 to 171. *)
Definition dumpResponse (cl : CommandLine) (res : Response) : M unit :=
  if flagVerbose cl then
    let '(dumpres, err) := DumpResponse res true in
    (match err with
     | Some e => print ("RESPONSE-ERROR:" +:+ nl +:+ e +:+ nl)
     | None => skip
     end) >>
    print ("RESPONSE:" +:+ nl +:+ Quote dumpres +:+ nl)
  else skip.

Definition fmtFloat (f : float) : string := FormatFloat f "f" (-1) 64.

(** Lines 198 to 218, the body of the loop over the metrics of a line,
    on the buffer [nagiosPerfdata]. *)
Definition perf (nagiosPerfdata : string) (p : Perf) : string :=
  let v := IntValue_ p in
  match Value v with
  | None => nagiosPerfdata
  | Some value =>
    let b := nagiosPerfdata +:+ (" '" +:+ Alias p +:+ "'=" +:+ fmtFloat value) in
    let b := match Unit v with Some u => b +:+ u | None => b end in
    let b := match Warning v with Some x => b +:+ (";" +:+ fmtFloat x) | None => b end in
    let b := match Critical v with Some x => b +:+ (";" +:+ fmtFloat x) | None => b end in
    let b := match Minimum v with Some x => b +:+ (";" +:+ fmtFloat x) | None => b end in
    let b := match Maximum v with Some x => b +:+ (";" +:+ fmtFloat x) | None => b end in
    b
  end.

(** Lines 193 to 220, the body of the loop over the lines, on
    [nagiosMessage] and [nagiosPerfdata]. *)
Definition line (st : string * string) (l : Line) : string * string :=
  (Strings.TrimSpace (Message l), foldl perf (snd st) (elems (Perf_ l))).

(** Lines 173 to 228. *)
Definition interpret (cl : CommandLine) (res : Response) : M unit :=
  if (length (Args cl) =? 0)%nat then
    Println ("OK: NSClient API reachable on " +:+ flagURL cl) >>
    osExit 0
  else
    let queryResult := fst (Json.Decode (remaining cl res) zeroQuery) in
    match elems (Payload queryResult) with
    | [] =>
      (if flagVerbose cl
       then print ("QUERY RESULT:" +:+ nl +:+ PlusV queryResult +:+ nl)
       else skip) >>
      Println "UNKNOWN: The resultpayload size is 0" >>
      osExit 3
    | payload0 :: _ =>
      let result := Result payload0 in
      let '(nagiosMessage, nagiosPerfdata) :=
        foldl line (EmptyString, EmptyString) (elems (Lines payload0)) in
      (if (String.length nagiosPerfdata =? 0)%nat
       then Println nagiosMessage
       else Println (nagiosMessage +:+ "|" +:+ Strings.TrimSpace nagiosPerfdata)) >>
      osExit (index 0%Z ReturncodeMap result)
    end.

(** [main] from line 88 on, on the command line that [flag.Parse] has
    left behind. *)
Definition main (cl : CommandLine) : M unit :=
  required cl >>
  match Parse (flagURL cl) with
  | inr e => Println ("UNKNOWN: " +:+ e) >> osExit 3
  | inl urlStruct =>
    let urlStruct := target urlStruct (Args cl) in
    let hClient := client cl in
    match NewRequest "GET" (URLString urlStruct) with
    | inr e => Println ("UNKNOWN: " +:+ e) >> osExit 3
    | inl req =>
      let req := HeaderAdd req "password" (flagPassword cl) in
      dumpRequest cl req >>
      match Do hClient req with
      | inr e => Println ("UNKNOWN: " +:+ e) >> osExit 3
      | inl res =>
        defer BodyClose >>
        dumpResponse cl res >>
        interpret cl res
      end
    end
  end.

(** The process: all of [main], on [os.Args[0]] and [os.Args[1:]]. *)
Definition process (arg0 : string) (arguments : list string) : M unit :=
  mbind (flagParse arg0 arguments) main.

End Program.

(** ** The claims in the words of the specification

    Each definition below says what the specification says; the theorems
    compare them with the program. *)

Section Specification.

Context {W : World}.

(** The four-entry table of §4.3 as a function, every other string
    going to 0. *)
Definition severity (code : string) : Z :=
  if decide (code = "OK") then 0
  else if decide (code = "WARNING") then 1
  else if decide (code = "CRITICAL") then 2
  else if decide (code = "UNKNOWN") then 3
  else 0.

(** A [;]-prefixed field of a tag, nothing at all when it is absent. *)
Definition field (x : option float) : string :=
  match x with
  | Some f => ";" +:+ fmtFloat f
  | None => EmptyString
  end.

(** The performance tag of a metric: none without a value, else the
    quoted alias, [=], the value, the unit if present, and the four
    optional fields. *)
Definition tag (p : Perf) : option string :=
  let v := IntValue_ p in
  match Value v with
  | None => None
  | Some value =>
    Some ("'" +:+ Alias p +:+ "'=" +:+ fmtFloat value +:+ default EmptyString (Unit v)
          +:+ field (Warning v) +:+ field (Critical v)
          +:+ field (Minimum v) +:+ field (Maximum v))
  end.

(** The tags of all metrics of all lines, in encounter order. *)
Definition tags (lines : list Line) : list string :=
  omap tag (flat_map (fun l => elems (Perf_ l)) lines).

(** The tags as they stand in the buffer, a space before each. *)
Fixpoint spaced (ts : list string) : string :=
  match ts with
  | [] => EmptyString
  | t :: ts' => " " +:+ t +:+ spaced ts'
  end.

(** The message: the trimmed message of the last line. *)
Definition message (lines : list Line) : string :=
  match last lines with
  | Some l => Strings.TrimSpace (Message l)
  | None => EmptyString
  end.

(** The output line for a payload entry: the message and, if any tag
    was produced, [|] and the space-joined, trimmed tags. *)
Definition pluginLine (entry : PayloadEntry) : string :=
  match tags (Lines entry) with
  | [] => message (Lines entry)
  | ts => message (Lines entry) +:+ "|" +:+ Strings.TrimSpace (spaced ts)
  end.

(** The required flags [-u] and [-p] were both set. *)
Definition given (cl : CommandLine) : Prop :=
  index false (seenFlags cl) "u" = true /\ index false (seenFlags cl) "p" = true.

(** The request [main] sends, when the URL parses and the request can
    be built. *)
Definition request (cl : CommandLine) : option Request :=
  match Parse (flagURL cl) with
  | inr _ => None
  | inl urlStruct =>
    match NewRequest "GET" (URLString (target urlStruct (Args cl))) with
    | inr _ => None
    | inl req => Some (HeaderAdd req "password" (flagPassword cl))
    end
  end.

(** The request and the response of a run whose HTTP call completes
    without a transport error. *)
Definition exchange (cl : CommandLine) : option (Request * Response) :=
  match request cl with
  | None => None
  | Some req =>
    match Do (client cl) req with
    | inr _ => None
    | inl res => Some (req, res)
    end
  end.


(** The structure [main] decodes from a response. *)
Definition decoded (cl : CommandLine) (res : Response) : Query :=
  fst (Json.Decode (remaining cl res) zeroQuery).

(** A JSON value that can fill a slice: an array with an element. *)
Definition holdsEntries (j : Json.value) : bool :=
  match j with
  | Json.Array (_ :: _) => true
  | _ => false
  end.

(** A body from which no payload entry can come: not well-formed JSON,
    not an object, or an object none of whose [payload] members is an
    array with an element. *)
Definition withoutEntries (body : option Json.value) : Prop :=
  match body with
  | Some (Json.Object members) =>
    Forall (fun m => Json.matches "payload" m.1 = true -> holdsEntries m.2 = false) members
  | _ => True
  end.

(** A body that is not well-formed JSON or not a JSON object. *)
Definition shapeless (body : option Json.value) : Prop :=
  match body with
  | Some (Json.Object _) => False
  | _ => True
  end.

(** The diagnostic dumps of verbose mode: of the request, of the
    response, and of the structure on the empty-payload path. *)
Definition diagnostic (label text : string) (e : option string) : list string :=
  match e with
  | Some e => [label +:+ "-ERROR:" +:+ nl +:+ e +:+ nl]
  | None => []
  end ++ [label +:+ ":" +:+ nl +:+ Quote text +:+ nl].

Definition requestDump (cl : CommandLine) (req : Request) : list string :=
  if flagVerbose cl
  then diagnostic "REQUEST" (fst (DumpRequestOut req true)) (snd (DumpRequestOut req true))
  else [].

Definition responseDump (cl : CommandLine) (res : Response) : list string :=
  if flagVerbose cl
  then diagnostic "RESPONSE" (fst (DumpResponse res true)) (snd (DumpResponse res true))
  else [].

Definition queryDump (cl : CommandLine) (q : Query) : list string :=
  if flagVerbose cl then ["QUERY RESULT:" +:+ nl +:+ PlusV q +:+ nl] else [].

(** What a completed exchange comes to: the exit status and the line
    that ends the output. *)
Definition verdict (cl : CommandLine) (res : Response) : Z * string :=
  match Args cl with
  | [] => (0, "OK: NSClient API reachable on " +:+ flagURL cl +:+ nl)
  | _ =>
    match elems (Payload (decoded cl res)) with
    | [] => (3, "UNKNOWN: The resultpayload size is 0" +:+ nl)
    | entry :: _ => (severity (Result entry), pluginLine entry +:+ nl)
    end
  end%Z.

(** The dump that verbose mode adds on the empty-payload path. *)
Definition payloadDump (cl : CommandLine) (res : Response) : list string :=
  match Args cl, elems (Payload (decoded cl res)) with
  | _ :: _, [] => queryDump cl (decoded cl res)
  | _, _ => []
  end.


(** The part of [s] before the first occurrence of the byte [sep], and
    the part after it; [None] when [sep] does not occur. *)
Fixpoint cut (sep : ascii) (s : string) : option (string * string) :=
  match s with
  | EmptyString => None
  | String c s' =>
    if Ascii.eqb c sep then Some (EmptyString, s')
    else match cut sep s' with
         | Some (before, after) => Some (String c before, after)
         | None => None
         end
  end.

(** The key and value of a [key=value] or bare [key] token: the token
    split at its first [=]. *)
Definition keyValue (a : string) : string * string :=
  match cut "=" a with
  | Some (k, v) => (k, v)
  | None => (a, EmptyString)
  end.

(** A query string: the pairs URL-encoded, [=] between key and value
    and [&] between pairs. *)
Fixpoint queryString (ps : list (string * string)) : string :=
  match ps with
  | [] => EmptyString
  | [(k, v)] => Url.QueryEscape k +:+ "=" +:+ Url.QueryEscape v
  | (k, v) :: ps' => Url.QueryEscape k +:+ "=" +:+ Url.QueryEscape v +:+ "&" +:+ queryString ps'
  end.

(** The values given for key [k], in their order. *)
Definition valuesOf (k : string) (ps : list (string * string)) : list string :=
  (filter (fun kv => kv.1 = k) ps).*2.

(** The pairs of [v] key by key, for the keys in the order [keys]. *)
Definition grouped (v : Url.Values) (keys : list string) : list (string * string) :=
  flat_map (fun k => (fun x => (k, x)) <$> default [] (v !! k)) keys.

(** The pairs of [v] in the order in which [Values.Encode] writes them. *)
Definition encoded (v : Url.Values) : list (string * string) :=
  grouped v (merge_sort String.le (elements (dom v))).

(** One turn of the loops of [Values.Encode] on a pair. *)
Definition writeKV (b : string) (kv : string * string) : string :=
  Url.writePair (Url.QueryEscape kv.1) b kv.2.

(** What a statement that only prints leaves behind. *)
Definition printed (lines : list string) (p : proc) : proc :=
  mkProc (stdout p ++ lines) (stderr p) (defers p).

(** The run of [main], path by path. *)
Definition paths (cl : CommandLine) : outcome :=
  match required cl (mkProc [] [] []) with
  | (Exit code, p) => mkOutcome code (stdout p) (stderr p) [] (defers p)
  | (Next _, _) =>
    match Parse (flagURL cl) with
    | inr e => mkOutcome 3 ["UNKNOWN: " +:+ e +:+ nl] [] [] []
    | inl urlStruct =>
      match NewRequest "GET" (URLString (target urlStruct (Args cl))) with
      | inr e => mkOutcome 3 ["UNKNOWN: " +:+ e +:+ nl] [] [] []
      | inl r =>
        let req := HeaderAdd r "password" (flagPassword cl) in
        match Do (client cl) req with
        | inr e => mkOutcome 3 (requestDump cl req ++ ["UNKNOWN: " +:+ e +:+ nl]) [] [] []
        | inl res =>
          mkOutcome (fst (verdict cl res))
            (requestDump cl req ++ responseDump cl res ++ payloadDump cl res
               ++ [snd (verdict cl res)])
            [] [] [BodyClose]
        end
      end
    end
  end.

End Specification.

(** ** A world to run the program in

    For the examples: an agent reached at an address without path or query
    that answers every request with the same body (or not at all), and
    [strconv.FormatFloat] for the one format [main] asks for.  (The
    [strconv.ParseInt] of the examples reads unsigned decimal numerals
    only.) *)

Module Strconv.

Local Open Scope Z_scope.

Definition digits (n : Z) : string := NilZero.string_of_uint (N.to_uint (Z.to_N n)).

Fixpoint zeros (n : nat) : string :=
  match n with
  | O => EmptyString
  | S n' => String "0" (zeros n')
  end.

(** The shortest decimal [n * 10^q] that reads back as the float
    [V / D], whose neighbours are half-way at [LO / D] and [HI / D]:
    the largest [q] for which a multiple of [10^q] lies in the interval,
    and of the two multiples around [V / D] the nearer one. *)
Fixpoint search (fuel : nat) (q : Z) (V LO HI D : Z) (inclusive : bool) : Z * Z :=
  match fuel with
  | O => (0, 0)
  | S fuel' =>
    let num := if q <? 0 then 10 ^ (- q) else 1 in
    let den := D * (if q <? 0 then 1 else 10 ^ q) in
    let v := V * num in
    let down := v / den in
    let up := down + 1 in
    let okdown := if inclusive then LO * num <=? down * den else LO * num <? down * den in
    let okup := if inclusive then up * den <=? HI * num else up * den <? HI * num in
    let a := v - down * den in
    let b := up * den - v in
    if okdown && okup then
      if a <? b then (down, q) else if b <? a then (up, q)
      else (if Z.even down then down else up, q)
    else if okdown then (down, q)
    else if okup then (up, q)
    else search fuel' (q - 1) V LO HI D inclusive
  end.

Definition shortest (m : positive) (e : Z) : Z * Z :=
  let m := Z.pos m in
  let k := e - 2 in
  let scale := if k <? 0 then 1 else 2 ^ k in
  let D := if k <? 0 then 2 ^ (- k) else 1 in
  let V := 4 * m * scale in
  let HI := (4 * m + 2) * scale in
  let LO := (if (m =? 2 ^ 52) && (-1074 <? e) then 4 * m - 1 else 4 * m - 2) * scale in
  let q0 := Z.log2 (HI / D + 1) / 3 + 1 in
  search (Z.to_nat (q0 + 1078)) q0 V LO HI D (Z.even m).

(** The format [f]: no exponent. *)
Definition fixed (n q : Z) : string :=
  let s := digits n in
  if 0 <=? q then s +:+ zeros (Z.to_nat q)
  else
    let frac := Z.to_nat (- q) in
    let len := String.length s in
    if (frac <? len)%nat
    then substring 0 (len - frac) s +:+ "." +:+ substring (len - frac) frac s
    else "0." +:+ zeros (frac - len) +:+ s.

(** [strconv.FormatFloat (f, 'f', -1, 64)]. *)
Definition FormatFloat (f : float) : string :=
  match Prim2SF f with
  | S754_nan => "NaN"
  | S754_infinity s => if s then "-Inf" else "+Inf"
  | S754_zero s => if s then "-0" else "0"
  | S754_finite s m e =>
    let '(n, q) := shortest m e in
    (if s then "-" else "") +:+ fixed n q
  end.

End Strconv.

(** *** Decimal notation

    What the specification calls the minimal decimal notation of a
    number, in terms of the text and in terms of the number. *)

Definition isDigit (c : ascii) : bool := ((48 <=? val c) && (val c <=? 57))%N.

(** One digit or more, and digits only. *)
Definition numeral (s : string) : bool :=
  negb (String.length s =? 0)%nat && forallb isDigit (bytes s).

(** A decimal numeral without an exponent: a minus sign or none, then
    digits, or digits, a point and digits. *)
Definition decimal (s : string) : bool :=
  let u := match s with
           | String c r => if Ascii.eqb c "-" then r else s
           | EmptyString => s
           end in
  match cut "." u with
  | Some (whole, fraction) => numeral whole && numeral fraction
  | None => numeral u
  end.

(** No zero at the end of the fraction. *)
Definition tight (s : string) : bool :=
  match cut "." s with
  | Some (_, fraction) => negb (bool_decide (last (bytes fraction) = Some "0"%char))
  | None => true
  end.

(** Both for a numeral without a sign. *)
Definition unsignedDecimal (s : string) : bool :=
  match cut "." s with
  | Some (whole, fraction) =>
    numeral whole && numeral fraction
    && negb (bool_decide (last (bytes fraction) = Some "0"%char))
  | None => numeral s
  end.

(** The bytes of a decimal numeral: digits, a minus sign, a point. *)
Definition numeric (c : ascii) : bool := isDigit c || Ascii.eqb c "-" || Ascii.eqb c ".".

(** The float with mantissa [m] and exponent [e], [m * 2^e], and the
    decimals that read back as it: those between the points half-way to
    its two neighbours, the points themselves included when [m] is even
    (a tie goes to the even mantissa).  All numbers are written as
    integers over the common denominator [denominator e]. *)
Module Shortest.

Local Open Scope Z_scope.

Definition scale (e : Z) : Z := if e - 2 <? 0 then 1 else 2 ^ (e - 2).
Definition denominator (e : Z) : Z := if e - 2 <? 0 then 2 ^ (- (e - 2)) else 1.

(** The float itself, [middle m e / denominator e]. *)
Definition middle (m : positive) (e : Z) : Z := 4 * Z.pos m * scale e.

(** Half-way to the next float above. *)
Definition upper (m : positive) (e : Z) : Z := (4 * Z.pos m + 2) * scale e.

(** Half-way to the next float below, which is half as far away when
    [m] is the least mantissa of its binade. *)
Definition lower (m : positive) (e : Z) : Z :=
  (if (Z.pos m =? 2 ^ 52) && (-1074 <? e) then 4 * Z.pos m - 1 else 4 * Z.pos m - 2) * scale e.

(** [x * num q / den D q] is [x / D] in units of [10^q]. *)
Definition num (q : Z) : Z := if q <? 0 then 10 ^ (- q) else 1.
Definition den (D q : Z) : Z := D * (if q <? 0 then 1 else 10 ^ q).

(** [k * 10^q] lies between [LO / D] and [HI / D]. *)
Definition within (LO HI D : Z) (inclusive : bool) (q k : Z) : bool :=
  if inclusive then (LO * num q <=? k * den D q) && (k * den D q <=? HI * num q)
  else (LO * num q <? k * den D q) && (k * den D q <? HI * num q).

(** The decimal [n * 10^q] reads back as the float [m * 2^e]. *)
Definition readsBack (m : positive) (e : Z) (n q : Z) : bool :=
  within (lower m e) (upper m e) (denominator e) (Z.even (Z.pos m)) q n.

(** The exponent at which [Strconv.shortest] starts its search. *)
Definition start (m : positive) (e : Z) : Z :=
  Z.log2 (upper m e / denominator e + 1) / 3 + 1.

End Shortest.

Module Stub.

Definition quote : string := String (ascii_of_N 34) EmptyString.

Definition address (u : Url.URL) : string :=
  Url.Host u +:+ Url.Path u +:+
  (if (String.length (Url.RawQuery u) =? 0)%nat then EmptyString
   else "?" +:+ Url.RawQuery u).

(** The classic decoder of [encoding/json], and one that stores the
    infinity of a number literal out of range. *)
Definition classic : Json.Decoder := {| Json.StoresInfinity := false |}.
Definition storing : Json.Decoder := {| Json.StoresInfinity := true |}.

(** The agent answers with [answer]: a transport error, or the body;
    [broken] is the error on which the body ends when it does not arrive
    whole, and [toolchain] the JSON decoder of the build. *)
Definition agent (toolchain : Json.Decoder) (broken : option string)
    (answer : string + option Json.value) : World := {|
  Request := string * list (string * string);
  Response := option Json.value;
  Parse := fun s => inl (Url.mkURL "" "" None s "" "" "" "");
  URLString := address;
  NewRequest := fun method url => inl (method +:+ " " +:+ url, []);
  HeaderAdd := fun req key value => (fst req, snd req ++ [(key, value)]);
  DumpRequestOut := fun req _ => (fst req, None);
  Do := fun _ _ => match answer with inl e => inr e | inr body => inl body end;
  DrainBody := fun _ => broken;
  WriteResponse := fun _ _ => inl "HTTP/1.1 200 OK";
  Body := fun res => res;
  JsonDecoder := toolchain;
  Quote := fun s => quote +:+ s +:+ quote;
  PlusV := fun _ => "&{}";
  ParseInt := fun s =>
    match NilEmpty.uint_of_string s with
    | Some d => inl (Z.of_N (N.of_uint d))
    | None => inr "parse error"
    end;
  FormatFloat := fun f _ _ _ => Strconv.FormatFloat f;
  Defaults := ""
|}.

(** The agent whose answers arrive whole, in a build with the classic
    decoder. *)
Definition world (answer : string + option Json.value) : World :=
  agent classic None answer.

(** [-u https://10.1.2.3:8443 -p secret] and the positional arguments. *)
Definition commandLine (v : bool) (args : list string) : CommandLine :=
  mkCommandLine "nscrestc" "https://10.1.2.3:8443" "secret" 10 v false ["p"; "u"] args.

(** The response of the end-to-end example of the specification, and the
    same with a second line and a second payload entry. *)
Definition diskLow : Json.value :=
  Json.Object [("payload", Json.Array [Json.Object [
    ("result", Json.String_ "WARNING");
    ("lines", Json.Array [Json.Object [
      ("message", Json.String_ "disk low");
      ("perf", Json.Array [Json.Object [
        ("alias", Json.String_ "used");
        ("int_value", Json.Object [
          ("value", Json.Number 95.5); ("unit", Json.String_ "%");
          ("warning", Json.Number 80); ("critical", Json.Number 90)])]])]])]])].

(** Two lines with a metric each, and a second payload entry. *)
Definition twoLines : Json.value :=
  Json.Object [("payload", Json.Array [
    Json.Object [
      ("result", Json.String_ "WARNING");
      ("lines", Json.Array [
        Json.Object [
          ("message", Json.String_ "disk c ok");
          ("perf", Json.Array [Json.Object [
            ("alias", Json.String_ "c");
            ("int_value", Json.Object [("value", Json.Number 12)])]])];
        Json.Object [
          ("message", Json.String_ "  disk d low ");
          ("perf", Json.Array [
            Json.Object [("alias", Json.String_ "free"); ("int_value", Json.Object [])];
            Json.Object [
              ("alias", Json.String_ "d");
              ("int_value", Json.Object [
                ("value", Json.Number 95.5); ("unit", Json.String_ "%");
                ("critical", Json.Number 90); ("minimum", Json.Number 0);
                ("maximum", Json.Number 100)])]])]])];
    Json.Object [
      ("result", Json.String_ "CRITICAL");
      ("lines", Json.Array [Json.Object [("message", Json.String_ "not looked at")]])]])].

(** A result string that is not in the table. *)
Definition severe : Json.value :=
  Json.Object [("payload", Json.Array [Json.Object [("result", Json.String_ "SEVERE")]])].

(** A well-formed response with an empty payload. *)
Definition emptyPayload : Json.value := Json.Object [("payload", Json.Array [])].

(** A metric whose value is a number literal out of the range of
    [float64], such as [1e999]. *)
Definition overflow : Json.value :=
  Json.Object [("payload", Json.Array [Json.Object [
    ("result", Json.String_ "OK");
    ("lines", Json.Array [Json.Object [
      ("message", Json.String_ "load high");
      ("perf", Json.Array [Json.Object [
        ("alias", Json.String_ "load");
        ("int_value", Json.Object [("value", Json.Number infinity)])]])]])]])].

(** A payload entry whose [lines] member is a number. *)
Definition wrongLines : Json.value :=
  Json.Object [("payload", Json.Array [Json.Object [
    ("result", Json.String_ "CRITICAL"); ("lines", Json.Number 7)]])].

End Stub.

(** ** Further properties, in the words of their statements *)

(** The report of a missing required flag on standard error: the line
    naming the flag, the usage header and the defaults of the flags. *)
Definition missing {W : World} (cl : CommandLine) (flag : string) : list string :=
  ["UNKNOWN: Missing required -" +:+ flag +:+ " argument" +:+ nl;
   "Usage of " +:+ Args0 cl +:+ ":" +:+ nl;
   Defaults].

(** How [flag.Parse] ends on the command line [arg0 arguments]. *)
Definition flagsOf {W : World} (arg0 : string) (arguments : list string) : parsed :=
  parseArgs (defaults arg0) ∅ arguments.

(** An argument that is no flag for [parseOne]: shorter than two bytes,
    or not beginning with [-]. *)
Definition positional (s : string) : bool :=
  (String.length s <? 2)%nat || negb (bool_decide (String.get 0 s = Some "-"%char)).

(** The name of the flag that the argument [s] names, as [parseOne]
    reads it: what stands after one or two [-] and before a [=]. *)
Definition flagName (s : string) : string :=
  let numMinuses := if bool_decide (String.get 1 s = Some "-"%char) then 2%nat else 1%nat in
  (nameValue (substring numMinuses (String.length s - numMinuses) s)).1.

(** The command line [cl] with the positional arguments [args]. *)
Definition withArgs (cl : CommandLine) (args : list string) : CommandLine :=
  mkCommandLine (Args0 cl) (flagURL cl) (flagPassword cl) (flagTimeout cl)
    (flagVerbose cl) (flagInsecure cl) (visited cl) args.

(** What [flag.Usage] writes to standard error. *)
Definition usageOf {W : World} (arg0 : string) : list string :=
  ["Usage of " +:+ arg0 +:+ ":" +:+ nl; Defaults].

(** The largest number of seconds whose nanoseconds fit an [int64]. *)
Definition maxSeconds : Z := 9223372036.

(** How often the byte [c] occurs in [s]. *)
Definition occurrences (c : ascii) (s : string) : nat :=
  length (filter (fun x => x = c) (bytes s)).

(** A byte that [url.QueryEscape] writes: one it leaves as it is, the [+]
    for a space, or the [%] and the hexadecimal digits of an escape. *)
Definition plain (c : ascii) : bool :=
  negb (Url.shouldEscape c) || Ascii.eqb c "+" || Ascii.eqb c "%".

(** An ASCII white-space byte: a space, a tab, a line feed, a vertical
    tab, a form feed or a carriage return. *)
Definition blank (c : ascii) : bool :=
  (val c <? Utf8.RuneSelf)%N && Unicode.IsSpace (val c).

(** *** A reply in the shape of [Query]

    The JSON document that carries a structure under the names of the
    tags: every field a member, a field tagged [omitempty] only when its
    pointer is set, a slice an array. *)

Definition number (name : string) (x : option float) : list (string * Json.value) :=
  match x with
  | Some f => [(name, Json.Number f)]
  | None => []
  end.

Definition text (name : string) (x : option string) : list (string * Json.value) :=
  match x with
  | Some s => [(name, Json.String_ s)]
  | None => []
  end.

Definition document_IntValue (v : IntValue) : Json.value :=
  Json.Object (number "value" (Value v) ++ text "unit" (Unit v)
               ++ number "warning" (Warning v) ++ number "critical" (Critical v)
               ++ number "mininum" (Minimum v) ++ number "maximum" (Maximum v)).

Definition document_Perf (p : Perf) : Json.value :=
  Json.Object [("alias", Json.String_ (Alias p));
               ("int_value", document_IntValue (IntValue_ p))].

Definition document_Line (l : Line) : Json.value :=
  Json.Object [("message", Json.String_ (Message l));
               ("perf", Json.Array (document_Perf <$> elems (Perf_ l)))].

Definition document_PayloadEntry (e : PayloadEntry) : Json.value :=
  Json.Object [("command", Json.String_ (Command e));
               ("lines", Json.Array (document_Line <$> elems (Lines e)));
               ("result", Json.String_ (Result e))].

Definition document (q : Query) : Json.value :=
  Json.Object [("header", Json.Object [("source_id", Json.String_ (SourceID (Header_ q)))]);
               ("payload", Json.Array (document_PayloadEntry <$> elems (Payload q)))].

(** A structure a JSON document can carry: its numbers are finite, and
    its slices have no capacity beyond their length. *)

Definition finite (x : option float) : bool :=
  match x with
  | Some f => is_finite f
  | None => true
  end.

Definition whole {T} (ok : T -> bool) (s : slice T) : bool :=
  forallb ok (elems s) && match spare s with [] => true | _ :: _ => false end.

Definition carried_IntValue (v : IntValue) : bool :=
  finite (Value v) && finite (Warning v) && finite (Critical v)
  && finite (Minimum v) && finite (Maximum v).

Definition carried_Perf (p : Perf) : bool := carried_IntValue (IntValue_ p).

Definition carried_Line (l : Line) : bool := whole carried_Perf (Perf_ l).

Definition carried_PayloadEntry (e : PayloadEntry) : bool := whole carried_Line (Lines e).

Definition carried (q : Query) : bool := whole carried_PayloadEntry (Payload q).

(** An entry of a reply that says its result: an object with a member
    [result] that is a string. *)
Definition saysResult (j : Json.value) : bool :=
  match j with
  | Json.Object members =>
    existsb (fun m => Json.matches "result" m.1
                      && match m.2 with Json.String_ _ => true | _ => false end) members
  | _ => false
  end.


(** ** Strings and the process monad *)

Lemma append_nil_r (s : string) : s +:+ EmptyString = s.
Proof.
  induction s as [|c s IH]; [reflexivity|].
  change (String c s +:+ EmptyString) with (String c (s +:+ EmptyString)).
  by rewrite IH.
Qed.

Lemma append_assoc (a b c : string) : (a +:+ b) +:+ c = a +:+ (b +:+ c).
Proof.
  induction a as [|x a IH]; [reflexivity|].
  change (String x ((a +:+ b) +:+ c) = String x (a +:+ (b +:+ c))).
  by rewrite IH.
Qed.

Lemma length_append (a b : string) :
  String.length (a +:+ b) = (String.length a + String.length b)%nat.
Proof.
  induction a as [|x a IH]; [reflexivity|].
  change (S (String.length (a +:+ b)) = S (String.length a + String.length b)).
  by rewrite IH.
Qed.

Section Process.

Context {W : World}.

Lemma printed_nil p : printed [] p = p.
Proof. destruct p. unfold printed. simpl. by rewrite app_nil_r. Qed.

Lemma printed_app l1 l2 p : printed l2 (printed l1 p) = printed (l1 ++ l2) p.
Proof. unfold printed. simpl. by rewrite app_assoc. Qed.

Lemma print_printed s p : print s p = (Next tt, printed [s] p).
Proof. reflexivity. Qed.

Lemma required_given cl p : given cl -> required cl p = (Next tt, p).
Proof.
  intros [Hu Hp]. unfold required. simpl.
  rewrite Hu, Hp. reflexivity.
Qed.

Lemma dumpRequest_printed cl req p :
  dumpRequest cl req p = (Next tt, printed (requestDump cl req) p).
Proof.
  unfold dumpRequest, requestDump.
  destruct (flagVerbose cl); [|by rewrite printed_nil].
  destruct (DumpRequestOut req true) as [dump [e|]]; simpl.
  - unfold mbind. rewrite !print_printed, printed_app. reflexivity.
  - reflexivity.
Qed.

Lemma dumpResponse_printed cl res p :
  dumpResponse cl res p = (Next tt, printed (responseDump cl res) p).
Proof.
  unfold dumpResponse, responseDump.
  destruct (flagVerbose cl); [|by rewrite printed_nil].
  destruct (DumpResponse res true) as [dump [e|]]; simpl.
  - unfold mbind. rewrite !print_printed, printed_app. reflexivity.
  - reflexivity.
Qed.

(** The exit status [main] hands to [os.Exit] is the table's. *)
Lemma ReturncodeMap_severity (code : string) :
  index 0%Z ReturncodeMap code = severity code.
Proof.
  unfold index, severity, ReturncodeMap.
  repeat (case_decide; [subst; reflexivity|]).
  rewrite !lookup_insert_ne by done.
  by rewrite lookup_singleton_ne.
Qed.

Lemma spaced_app (ts us : list string) : spaced (ts ++ us) = spaced ts +:+ spaced us.
Proof.
  induction ts as [|t ts IH]; [reflexivity|].
  simpl. rewrite IH. by rewrite !append_assoc.
Qed.

Lemma spaced_empty (ts : list string) :
  (String.length (spaced ts) =? 0)%nat = true -> ts = [].
Proof. by destruct ts. Qed.

(** One turn of the inner loop appends the metric's tag, after a space,
    or nothing. *)
Lemma perf_tag (buf : string) (p : Perf) :
  perf buf p = buf +:+ spaced (option_list (tag p)).
Proof.
  unfold perf, tag, field.
  destruct (Value (IntValue_ p)); simpl; [|by rewrite append_nil_r].
  destruct (Unit (IntValue_ p)), (Warning (IntValue_ p)), (Critical (IntValue_ p)),
    (Minimum (IntValue_ p)), (Maximum (IntValue_ p)); simpl;
    rewrite ?append_assoc, ?append_nil_r; reflexivity.
Qed.

Lemma perfs_tags (buf : string) (ps : list Perf) :
  foldl perf buf ps = buf +:+ spaced (omap tag ps).
Proof.
  revert buf. induction ps as [|p ps IH]; intros buf; simpl.
  - by rewrite append_nil_r.
  - rewrite IH, perf_tag. destruct (tag p); simpl.
    + rewrite !append_assoc. reflexivity.
    + by rewrite append_nil_r.
Qed.

(** The loop over the lines keeps the last trimmed message and the tags
    of all lines. *)
Lemma lines_tags (msg buf : string) (lines : list Line) :
  foldl line (msg, buf) lines =
  (match last lines with
   | Some l => Strings.TrimSpace (Message l)
   | None => msg
   end, buf +:+ spaced (tags lines)).
Proof.
  revert msg buf. induction lines as [|l lines IH]; intros msg buf.
  - simpl. by rewrite append_nil_r.
  - change (foldl line (msg, buf) (l :: lines))
      with (foldl line (line (msg, buf) l) lines).
    unfold line at 2. rewrite IH. simpl snd. rewrite perfs_tags.
    unfold tags. simpl flat_map. rewrite omap_app, spaced_app, append_assoc.
    f_equal. destruct lines as [|l0 lines]; [reflexivity|].
    change (last (l :: l0 :: lines)) with (last (l0 :: lines)).
    destruct (last (l0 :: lines)) eqn:E; [reflexivity|].
    by apply last_None in E.
Qed.

Lemma interpret_probe cl res p :
  Args cl = [] ->
  interpret cl res p =
  (Exit 0, printed ["OK: NSClient API reachable on " +:+ flagURL cl +:+ nl] p).
Proof.
  intros H. unfold interpret. rewrite H. simpl.
  unfold mbind, Println, print, osExit, printed.
  by rewrite append_assoc.
Qed.

Lemma interpret_empty cl res p :
  Args cl <> [] -> elems (Payload (decoded cl res)) = [] ->
  interpret cl res p =
  (Exit 3, printed (queryDump cl (decoded cl res)
                      ++ ["UNKNOWN: The resultpayload size is 0" +:+ nl]) p).
Proof.
  intros Hargs Hpay. unfold interpret.
  destruct (Args cl) as [|a args]; [done|]. simpl.
  fold (decoded cl res). rewrite Hpay.
  unfold queryDump, mbind, Println, print, skip, mret, osExit, printed.
  destruct (flagVerbose cl); simpl; rewrite <- ?app_assoc; reflexivity.
Qed.

Lemma interpret_entry cl res p entry rest :
  Args cl <> [] -> elems (Payload (decoded cl res)) = entry :: rest ->
  interpret cl res p =
  (Exit (severity (Result entry)), printed [pluginLine entry +:+ nl] p).
Proof.
  intros Hargs Hpay. unfold interpret.
  destruct (Args cl) as [|a args]; [done|]. simpl.
  fold (decoded cl res). rewrite Hpay, lines_tags, ReturncodeMap_severity.
  unfold pluginLine, message, mbind, Println, print, osExit, printed.
  change (EmptyString +:+ spaced (tags (Lines entry))) with (spaced (tags (Lines entry))).
  destruct (String.length (spaced (tags (Lines entry))) =? 0)%nat eqn:Hlen.
  - apply spaced_empty in Hlen. by rewrite Hlen.
  - destruct (tags (Lines entry)) as [|t ts] eqn:Htags; [done|].
    by rewrite !append_assoc.
Qed.

(** A run whose HTTP call completes comes to the interpretation of the
    response with the dumps of verbose mode printed and the closing of the
    body deferred. *)
Lemma main_exchange cl req res p :
  given cl -> exchange cl = Some (req, res) ->
  main cl p =
  interpret cl res
    (mkProc (stdout p ++ requestDump cl req ++ responseDump cl res) (stderr p)
       (BodyClose :: defers p)).
Proof.
  intros Hgiven Hex. unfold main, mbind.
  rewrite (required_given cl p Hgiven).
  unfold exchange, request in Hex.
  destruct (Parse (flagURL cl)) as [u|]; [|done].
  destruct (NewRequest "GET" (URLString (target u (Args cl)))) as [r|]; [|done].
  rewrite dumpRequest_printed.
  destruct (Do (client cl) (HeaderAdd r "password" (flagPassword cl))) as [res'|];
    [|done].
  injection Hex as <- <-.
  unfold defer. rewrite dumpResponse_printed.
  unfold printed. simpl. by rewrite <- app_assoc.
Qed.

Lemma interpret_verdict cl res p :
  interpret cl res p =
  (Exit (fst (verdict cl res)),
   printed (payloadDump cl res ++ [snd (verdict cl res)]) p).
Proof.
  unfold verdict, payloadDump.
  destruct (Args cl) as [|a args] eqn:Hargs.
  - by rewrite interpret_probe.
  - destruct (elems (Payload (decoded cl res))) as [|entry rest] eqn:Hpay.
    + rewrite interpret_empty; [done|by rewrite Hargs|done].
    + erewrite interpret_entry; [done|by rewrite Hargs|done].
Qed.

(** The outcome of a run whose HTTP call completes. *)
Lemma run_exchange cl req res :
  given cl -> exchange cl = Some (req, res) ->
  run (main cl) =
  mkOutcome (fst (verdict cl res))
    (requestDump cl req ++ responseDump cl res ++ payloadDump cl res
       ++ [snd (verdict cl res)])
    [] [] [BodyClose].
Proof.
  intros Hgiven Hex. unfold run.
  rewrite (main_exchange cl req res _ Hgiven Hex), interpret_verdict.
  unfold printed. simpl. by rewrite <- !app_assoc.
Qed.

Lemma dumps_quiet cl req res :
  flagVerbose cl = false ->
  requestDump cl req = [] /\ responseDump cl res = [] /\ payloadDump cl res = [].
Proof.
  intros H. unfold requestDump, responseDump, payloadDump, queryDump. rewrite H.
  repeat split. by destruct (Args cl), (elems (Payload (decoded cl res))).
Qed.

End Process.

(** ** Exit status and output of a completed exchange *)

Section Outcome.

Context {W : World}.

(** C1.  When at least one positional argument was given and the decoded
    payload is not empty, the exit status is what the table OK -> 0,
    WARNING -> 1, CRITICAL -> 2, UNKNOWN -> 3 gives for the result string
    of the first payload entry, and 0 (not 3) for a string outside the
    table. *)
Theorem exit_status_of_first_entry cl req res entry rest :
  given cl -> exchange cl = Some (req, res) ->
  Args cl <> [] -> elems (Payload (decoded cl res)) = entry :: rest ->
  exitCode (run (main cl)) = index 0%Z ReturncodeMap (Result entry)
  /\ exitCode (run (main cl)) = severity (Result entry)
  /\ (ReturncodeMap !! Result entry = None -> exitCode (run (main cl)) = 0%Z).
Proof.
  intros Hgiven Hex Hargs Hpay.
  rewrite (run_exchange cl req res Hgiven Hex). simpl.
  unfold verdict. destruct (Args cl); [done|]. rewrite Hpay. simpl.
  split; [by rewrite ReturncodeMap_severity|]. split; [done|].
  intros Hnone. rewrite <- ReturncodeMap_severity. unfold index. by rewrite Hnone.
Qed.

(** C3.  Of a response with a non-empty payload only the first entry is
    consulted: the line printed last is the trimmed message of the last
    line of that entry and, if and only if a tag was produced, [|] and
    the tags of all its lines in line order; before that line stand only
    the dumps of verbose mode, and the exit status is that of the first
    entry. *)
Theorem output_of_first_entry cl req res entry rest :
  given cl -> exchange cl = Some (req, res) ->
  Args cl <> [] -> elems (Payload (decoded cl res)) = entry :: rest ->
  out (run (main cl)) =
    requestDump cl req ++ responseDump cl res ++ [pluginLine entry +:+ nl]
  /\ last (out (run (main cl))) = Some (pluginLine entry +:+ nl)
  /\ (flagVerbose cl = false -> out (run (main cl)) = [pluginLine entry +:+ nl])
  /\ exitCode (run (main cl)) = severity (Result entry)
  /\ (forall l, last (elems (Lines entry)) = Some l ->
      tags (Lines entry) = [] ->
      pluginLine entry = Strings.TrimSpace (Message l))
  /\ (forall l, last (elems (Lines entry)) = Some l ->
      tags (Lines entry) <> [] ->
      pluginLine entry =
      Strings.TrimSpace (Message l) +:+ "|" +:+ Strings.TrimSpace (spaced (tags (Lines entry))))
  /\ (elems (Lines entry) = [] -> pluginLine entry = EmptyString).
Proof.
  intros Hgiven Hex Hargs Hpay.
  rewrite (run_exchange cl req res Hgiven Hex). simpl.
  assert (Hv : verdict cl res = (severity (Result entry), pluginLine entry +:+ nl)).
  { unfold verdict. destruct (Args cl); [done|]. by rewrite Hpay. }
  assert (Hd : payloadDump cl res = []).
  { unfold payloadDump. destruct (Args cl); [done|]. by rewrite Hpay. }
  rewrite Hv, Hd. simpl.
  split; [done|]. split.
  { by rewrite !app_assoc, last_snoc. }
  split.
  { intros Hq. by destruct (dumps_quiet cl req res Hq) as (-> & -> & _). }
  split; [done|].
  split; [|split].
  - intros l Hl Ht. unfold pluginLine, message. by rewrite Hl, Ht.
  - intros l Hl Ht. unfold pluginLine, message. rewrite Hl.
    by destruct (tags (Lines entry)).
  - intros Hl. unfold pluginLine, message, tags. by rewrite Hl.
Qed.

(** C4.  When at least one positional argument was given and the decoded
    payload is empty, the line printed last is
    [UNKNOWN: The resultpayload size is 0] and the exit status is 3; the
    line is all of standard output unless verbose mode puts its dumps
    before it. *)
Theorem empty_payload_is_unknown cl req res :
  given cl -> exchange cl = Some (req, res) ->
  Args cl <> [] -> elems (Payload (decoded cl res)) = [] ->
  exitCode (run (main cl)) = 3%Z
  /\ out (run (main cl)) =
       requestDump cl req ++ responseDump cl res ++ queryDump cl (decoded cl res)
         ++ ["UNKNOWN: The resultpayload size is 0" +:+ nl]
  /\ last (out (run (main cl))) = Some ("UNKNOWN: The resultpayload size is 0" +:+ nl)
  /\ (flagVerbose cl = false ->
      out (run (main cl)) = ["UNKNOWN: The resultpayload size is 0" +:+ nl]).
Proof.
  intros Hgiven Hex Hargs Hpay.
  rewrite (run_exchange cl req res Hgiven Hex). simpl.
  unfold verdict, payloadDump. destruct (Args cl); [done|]. rewrite Hpay. simpl.
  split; [done|]. split; [done|]. split.
  { by rewrite !app_assoc, last_snoc. }
  intros Hq. unfold requestDump, responseDump, queryDump. by rewrite Hq.
Qed.

(** C7.  A run without positional arguments whose HTTP call completes
    prints [OK: NSClient API reachable on <url>] and exits with status 0,
    whatever the response holds; the line is all of standard output
    unless verbose mode puts its dumps before it. *)
Theorem probe_is_ok cl req res :
  given cl -> exchange cl = Some (req, res) -> Args cl = [] ->
  exitCode (run (main cl)) = 0%Z
  /\ out (run (main cl)) =
       requestDump cl req ++ responseDump cl res
         ++ ["OK: NSClient API reachable on " +:+ flagURL cl +:+ nl]
  /\ last (out (run (main cl))) =
       Some ("OK: NSClient API reachable on " +:+ flagURL cl +:+ nl)
  /\ (flagVerbose cl = false ->
      out (run (main cl)) = ["OK: NSClient API reachable on " +:+ flagURL cl +:+ nl]).
Proof.
  intros Hgiven Hex Hargs.
  rewrite (run_exchange cl req res Hgiven Hex). simpl.
  unfold verdict, payloadDump. rewrite Hargs. simpl.
  split; [done|]. split; [done|]. split.
  { by rewrite !app_assoc, last_snoc. }
  intros Hq. unfold requestDump, responseDump. by rewrite Hq.
Qed.

Lemma Decode_diskLow :
  (Json.Decode (Some Stub.diskLow) zeroQuery).1 =
  mkQuery (mkHeader "")
    (Slice [mkPayloadEntry ""
              (Slice [mkLine "disk low"
                        (Slice [mkPerf "used"
                                  (mkIntValue (Some 95.5%float) (Some "%") (Some 80%float)
                                     (Some 90%float) None None)] [])] [])
              "WARNING"] []).
Proof. vm_compute. reflexivity. Qed.

(** The end-to-end example of the specification, in every world in which
    [strconv.FormatFloat] writes 95.5, 80 and 90 as Go does: the response
    with result WARNING, message [disk low] and the metric [used] gives
    the line [disk low|'used'=95.5%;80;90] and exit status 1. *)
Theorem end_to_end_disk_low cl req res :
  given cl -> exchange cl = Some (req, res) -> Args cl <> [] ->
  remaining cl res = Some Stub.diskLow ->
  FormatFloat 95.5 "f" (-1) 64 = "95.5" ->
  FormatFloat 80 "f" (-1) 64 = "80" ->
  FormatFloat 90 "f" (-1) 64 = "90" ->
  last (out (run (main cl))) = Some ("disk low|'used'=95.5%;80;90" +:+ nl)
  /\ exitCode (run (main cl)) = 1%Z.
Proof.
  intros Hgiven Hex Hargs Hbody H1 H2 H3.
  rewrite (run_exchange cl req res Hgiven Hex). simpl.
  unfold verdict. destruct (Args cl); [done|].
  unfold decoded. rewrite Hbody, Decode_diskLow.
  simpl elems. cbv iota. simpl fst. simpl snd.
  unfold pluginLine, tags, tag, field, fmtFloat, message. simpl.
  rewrite H1, H2, H3.
  split; [|reflexivity].
  rewrite !app_assoc, last_snoc. f_equal.
Qed.

End Outcome.

(** ** Verbose mode and the deferred close *)

Section Paths.

Context {W : World}.

(** The check of the required flags either passes and leaves the process
    as it was, or ends it with status 3 and the usage on standard error. *)
Lemma required_cases cl p :
  required cl p = (Next tt, p)
  \/ exists usage, required cl p = (Exit 3, mkProc (stdout p) (stderr p ++ usage) (defers p)).
Proof.
  unfold required. simpl. unfold mbind, eprint, osExit, skip, mret. simpl.
  destruct (index false (seenFlags cl) "u"); simpl.
  - destruct (index false (seenFlags cl) "p"); simpl.
    + by left.
    + right. eexists. by rewrite <- !app_assoc.
  - right. eexists. by rewrite <- !app_assoc.
Qed.

Lemma run_paths cl : run (main cl) = paths cl.
Proof.
  unfold run, paths, main. unfold mbind at 1.
  destruct (required_cases cl (mkProc [] [] [])) as [-> | [usage ->]]; [|done].
  destruct (Parse (flagURL cl)) as [u|e].
  - destruct (NewRequest "GET" (URLString (target u (Args cl)))) as [r|e].
    + unfold mbind at 1. rewrite dumpRequest_printed.
      destruct (Do (client cl) (HeaderAdd r "password" (flagPassword cl))) as [res|e].
      * unfold mbind, defer. rewrite dumpResponse_printed, interpret_verdict.
        unfold printed. simpl. by rewrite <- !app_assoc.
      * unfold mbind, Println, print, osExit, printed. simpl.
        by rewrite append_assoc.
    + unfold mbind, Println, print, osExit. simpl. by rewrite append_assoc.
  - unfold mbind, Println, print, osExit. simpl. by rewrite append_assoc.
Qed.

(** Whatever the command line and the world, [main] never returns: every
    path ends in [os.Exit]. *)
Lemma main_exits cl : ran (run (main cl)) = [].
Proof.
  rewrite run_paths. unfold paths.
  destruct (required cl (mkProc [] [] [])) as [[[]|code] p]; [|done].
  destruct (Parse (flagURL cl)); [|done].
  destruct (NewRequest _ _); [|done].
  by destruct (Do _ _).
Qed.







(** C9 (what the code does instead).  In a run whose HTTP call completes
    the call [res.Body.Close ()] is deferred and then never made: the
    process ends in [os.Exit] with the call still pending, on the probe
    path, the empty-payload path and the path of a decoded entry alike. *)
Theorem body_close_never_runs cl req res :
  given cl -> exchange cl = Some (req, res) ->
  ran (run (main cl)) = [] /\ pending (run (main cl)) = [BodyClose].
Proof.
  intros Hgiven Hex. by rewrite (run_exchange cl req res Hgiven Hex).
Qed.

Lemma severity_range (code : string) : severity code ∈ [0; 1; 2; 3]%Z.
Proof. unfold severity. repeat case_decide; set_solver. Qed.

(** Every run ends in [os.Exit], with a status from 0 to 3, whatever the
    command line and whatever the world answers. *)
Theorem exit_status_range cl :
  exitCode (run (main cl)) ∈ [0; 1; 2; 3]%Z /\ ran (run (main cl)) = [].
Proof.
  split; [|apply main_exits].
  rewrite run_paths. unfold paths.
  destruct (required_cases cl (mkProc [] [] [])) as [-> | [usage ->]]; [|set_solver].
  destruct (Parse (flagURL cl)); [|set_solver].
  destruct (NewRequest _ _); [|set_solver].
  destruct (Do _ _) as [res|]; [|set_solver].
  simpl. unfold verdict.
  destruct (Args cl); [set_solver|].
  destruct (elems (Payload (decoded cl res))); [set_solver|apply severity_range].
Qed.

Lemma required_missing cl p :
  ~ given cl ->
  exists flag usage,
    required cl p =
    (Exit 3, mkProc (stdout p)
               (stderr p ++ ("UNKNOWN: Missing required -" +:+ flag +:+ " argument" +:+ nl) :: usage)
               (defers p)).
Proof.
  intros Hnot. unfold required. simpl. unfold mbind, eprint, osExit, skip, mret. simpl.
  destruct (index false (seenFlags cl) "u") eqn:Hu; simpl.
  - destruct (index false (seenFlags cl) "p") eqn:Hp; simpl.
    + by destruct Hnot.
    + exists "p". eexists. by rewrite <- !app_assoc.
  - exists "u". eexists. by rewrite <- !app_assoc.
Qed.


End Paths.

(** ** Numbers in decimal notation *)

Section Numbers.

Import Shortest.

Local Open Scope Z_scope.

Section Search.

Variables (V LO HI D : Z) (inclusive : bool).
Hypothesis HD : 0 < D.
Hypothesis HLO : 0 < LO.
Hypothesis HLV : LO < V.
Hypothesis HVH : V < HI.


Lemma num_pos q : 0 < num q.
Proof. unfold num. destruct (q <? 0) eqn:E; [|lia]. apply Z.pow_pos_nonneg; lia. Qed.

Lemma den_pos q : 0 < den D q.
Proof.
  unfold den. destruct (q <? 0) eqn:E; [lia|].
  apply Z.mul_pos_pos; [done|]. apply Z.pow_pos_nonneg; lia.
Qed.

Lemma search_S fuel q :
  Strconv.search (S fuel) q V LO HI D inclusive =
  let v := V * num q in
  let down := v / den D q in
  let up := down + 1 in
  let okdown := if inclusive then LO * num q <=? down * den D q else LO * num q <? down * den D q in
  let okup := if inclusive then up * den D q <=? HI * num q else up * den D q <? HI * num q in
  let a := v - down * den D q in
  let b := up * den D q - v in
  if okdown && okup then
    if a <? b then (down, q) else if b <? a then (up, q)
    else (if Z.even down then down else up, q)
  else if okdown then (down, q)
  else if okup then (up, q)
  else Strconv.search fuel (q - 1) V LO HI D inclusive.
Proof. reflexivity. Qed.

Lemma down_bounds q :
  let down := V * num q / den D q in
  down * den D q <= V * num q < (down + 1) * den D q.
Proof.
  intros down. pose proof (den_pos q) as Hd.
  pose proof (Z.mul_div_le (V * num q) (den D q) Hd).
  pose proof (Z.mul_succ_div_gt (V * num q) (den D q) Hd).
  unfold down. lia.
Qed.

(** A step that finds a multiple returns one within LO HI D inclusive the bounds. *)
Lemma step_found fuel q n q' :
  let down := V * num q / den D q in
  ((if inclusive then LO * num q <=? down * den D q else LO * num q <? down * den D q)
   || (if inclusive then (down + 1) * den D q <=? HI * num q
       else (down + 1) * den D q <? HI * num q)) = true ->
  Strconv.search (S fuel) q V LO HI D inclusive = (n, q') ->
  q' = q /\ within LO HI D inclusive q n = true.
Proof.
  intros down Hok. rewrite search_S. cbv zeta. fold down.
  pose proof (down_bounds q) as Hb. cbv zeta in Hb. fold down in Hb.
  pose proof (num_pos q) as Hn. pose proof (den_pos q) as Hd.
  assert (HL : LO * num q < V * num q) by nia.
  assert (HH : V * num q < HI * num q) by nia.
  unfold within.
  destruct inclusive;
  repeat match goal with
         | |- context [if ?b then _ else _] => destruct b eqn:?
         end;
  try discriminate;
  intros [= <- <-]; split; try reflexivity;
  rewrite ?andb_true_iff, ?Z.leb_le, ?Z.ltb_lt, ?Z.leb_gt, ?Z.ltb_ge in *; try lia.
Qed.


(** A step that finds none goes on: no multiple lies within LO HI D inclusive the bounds. *)
Lemma step_none q k :
  let down := V * num q / den D q in
  ((if inclusive then LO * num q <=? down * den D q else LO * num q <? down * den D q)
   || (if inclusive then (down + 1) * den D q <=? HI * num q
       else (down + 1) * den D q <? HI * num q)) = false ->
  within LO HI D inclusive q k = false.
Proof.
  intros down Hok.
  pose proof (down_bounds q) as Hb. cbv zeta in Hb. fold down in Hb.
  pose proof (num_pos q) as Hn. pose proof (den_pos q) as Hd.
  apply orb_false_elim in Hok as [H1 H2].
  unfold within.
  destruct (Z_le_gt_dec k down) as [Hk|Hk].
  - assert (k * den D q <= down * den D q) by nia.
    destruct inclusive; rewrite ?Z.leb_gt, ?Z.ltb_ge in H1;
      apply andb_false_intro1; rewrite ?Z.leb_gt, ?Z.ltb_ge; lia.
  - assert ((down + 1) * den D q <= k * den D q) by nia.
    destruct inclusive; rewrite ?Z.leb_gt, ?Z.ltb_ge in H2;
      apply andb_false_intro2; rewrite ?Z.leb_gt, ?Z.ltb_ge; lia.
Qed.

Lemma search_not_found fuel q :
  let down := V * num q / den D q in
  ((if inclusive then LO * num q <=? down * den D q else LO * num q <? down * den D q)
   || (if inclusive then (down + 1) * den D q <=? HI * num q
       else (down + 1) * den D q <? HI * num q)) = false ->
  Strconv.search (S fuel) q V LO HI D inclusive =
  Strconv.search fuel (q - 1) V LO HI D inclusive.
Proof.
  intros down Hok. rewrite search_S. cbv zeta. fold down.
  apply orb_false_elim in Hok as [-> ->]. reflexivity.
Qed.

(** The search returns the first exponent, going down from [q], at which
    a multiple lies within LO HI D inclusive the bounds, when there is one in reach. *)
Lemma search_spec fuel q q0 k0 n q' :
  q - Z.of_nat fuel < q0 <= q -> within LO HI D inclusive q0 k0 = true ->
  Strconv.search fuel q V LO HI D inclusive = (n, q') ->
  q0 <= q' <= q /\ within LO HI D inclusive q' n = true
  /\ (forall q'' k, q' < q'' <= q -> within LO HI D inclusive q'' k = false).
Proof.
  revert q. induction fuel as [|fuel IH]; intros q Hq Hin Hs; [lia|].
  set (down := V * num q / den D q).
  destruct ((if inclusive then LO * num q <=? down * den D q else LO * num q <? down * den D q)
            || (if inclusive then (down + 1) * den D q <=? HI * num q
                else (down + 1) * den D q <? HI * num q)) eqn:Hok.
  - destruct (step_found fuel q n q' Hok Hs) as [-> Hw].
    split; [lia|]. split; [done|]. intros; lia.
  - rewrite (search_not_found fuel q Hok) in Hs.
    assert (Hq0 : q0 <> q).
    { intros ->. by rewrite (step_none q k0 Hok) in Hin. }
    destruct (IH (q - 1) ltac:(lia) Hin Hs) as (Hr & Hw & Hmax).
    split; [lia|]. split; [done|].
    intros q'' k Hq''. destruct (Z.eq_dec q'' q) as [->|Hne].
    + by apply step_none.
    + apply Hmax. lia.
Qed.

(** Within the bounds there is only a positive multiple. *)
Lemma within_pos q k : within LO HI D inclusive q k = true -> 0 < k.
Proof.
  pose proof (num_pos q) as Hn. pose proof (den_pos q) as Hd.
  unfold within. destruct inclusive; intros [H1 H2]%andb_prop;
    rewrite ?Z.leb_le, ?Z.ltb_lt in *; nia.
Qed.

(** One digit more: [k * 10^(q+1)] is [10 k * 10^q]. *)
Lemma within_tenfold q k : q < 0 -> within LO HI D inclusive q (10 * k) = within LO HI D inclusive (q + 1) k.
Proof.
  intros Hq. unfold within, num, den.
  destruct (q <? 0) eqn:E1; [|lia].
  destruct (q + 1 <? 0) eqn:E2.
  - replace (- q) with (Z.succ (- (q + 1))) by lia.
    rewrite Z.pow_succ_r by lia.
    assert (0 < 10 ^ (- (q + 1))) by (apply Z.pow_pos_nonneg; lia).
    destruct inclusive; f_equal;
      apply eq_true_iff_eq; rewrite ?Z.leb_le, ?Z.ltb_lt; nia.
  - assert (q = -1) as -> by lia. simpl.
    destruct inclusive; f_equal;
      apply eq_true_iff_eq; rewrite ?Z.leb_le, ?Z.ltb_lt; lia.
Qed.

End Search.

Lemma shortest_search m e :
  Strconv.shortest m e =
  Strconv.search (Z.to_nat (start m e + 1078)) (start m e)
    (middle m e) (lower m e) (upper m e) (denominator e) (Z.even (Z.pos m)).
Proof. reflexivity. Qed.

Lemma scale_pos e : 0 < scale e.
Proof. unfold scale. destruct (e - 2 <? 0) eqn:E; [lia|]. apply Z.pow_pos_nonneg; lia. Qed.

Lemma denominator_pos e : 0 < denominator e.
Proof.
  unfold denominator. destruct (e - 2 <? 0) eqn:E; [|lia]. apply Z.pow_pos_nonneg; lia.
Qed.

Lemma lower_pos m e : 0 < lower m e.
Proof.
  unfold lower. pose proof (scale_pos e).
  destruct ((Z.pos m =? 2 ^ 52) && (-1074 <? e)); nia.
Qed.

Lemma lower_middle m e : lower m e < middle m e.
Proof.
  unfold lower, middle. pose proof (scale_pos e).
  destruct ((Z.pos m =? 2 ^ 52) && (-1074 <? e)); nia.
Qed.

Lemma middle_upper m e : middle m e < upper m e.
Proof. unfold upper, middle. pose proof (scale_pos e). nia. Qed.

Lemma start_pos m e : 1 <= start m e.
Proof.
  unfold start.
  pose proof (Z.log2_nonneg (upper m e / denominator e + 1)).
  pose proof (Z.div_pos (Z.log2 (upper m e / denominator e + 1)) 3). lia.
Qed.

(** The float itself, written out in full, lies within its bounds. *)
Lemma middle_within m e :
  exists q0 k0, Z.min e 0 <= q0 <= 0
    /\ within (lower m e) (upper m e) (denominator e) (Z.even (Z.pos m)) q0 k0 = true.
Proof.
  pose proof (lower_middle m e) as HL. pose proof (middle_upper m e) as HH.
  assert (Hin : forall q0 k0, k0 * den (denominator e) q0 = middle m e * num q0 ->
                within (lower m e) (upper m e) (denominator e) (Z.even (Z.pos m)) q0 k0 = true).
  { intros q0 k0 Hk. unfold within. rewrite Hk. pose proof (num_pos q0).
    destruct (Z.even (Z.pos m)); apply andb_true_intro;
      rewrite ?Z.leb_le, ?Z.ltb_lt; nia. }
  destruct (Z_lt_ge_dec e 0) as [He|He].
  - exists e, (Z.pos m * 5 ^ (- e)). split; [lia|]. apply Hin.
    unfold den, num, middle, denominator, scale.
    destruct (e <? 0) eqn:E1; [|lia]. destruct (e - 2 <? 0) eqn:E2; [|lia].
    replace (- (e - 2)) with (2 + - e) by lia.
    rewrite Z.pow_add_r by lia. change (10 ^ (- e)) with ((5 * 2) ^ (- e)).
    rewrite Z.pow_mul_l. change (2 ^ 2) with 4. ring.
  - exists 0. destruct (Z_lt_ge_dec e 2) as [He2|He2].
    + exists (Z.pos m * 2 ^ e). split; [lia|]. apply Hin.
      unfold den, num, middle, denominator, scale. simpl (0 <? 0).
      destruct (e - 2 <? 0) eqn:E2; [|lia].
      assert (e = 0 \/ e = 1) as [-> | ->] by lia; simpl; lia.
    + exists (middle m e). split; [lia|]. apply Hin.
      unfold den, num, denominator. simpl (0 <? 0).
      destruct (e - 2 <? 0) eqn:E2; [lia|]. simpl. lia.
Qed.

(** A power of ten above the upper bound has no multiple within the
    bounds. *)
Lemma above_start m e q k :
  start m e <= q ->
  within (lower m e) (upper m e) (denominator e) (Z.even (Z.pos m)) q k = false.
Proof.
  intros Hq. pose proof (start_pos m e) as Hs.
  pose proof (lower_pos m e) as HL. pose proof (denominator_pos e) as HD.
  pose proof (middle_upper m e) as HH. pose proof (lower_middle m e) as HLV.
  set (x := upper m e / denominator e + 1) in *.
  assert (Hx : 0 < x).
  { unfold x. pose proof (Z.div_pos (upper m e) (denominator e)). lia. }
  assert (Hpow : x < 10 ^ q).
  { pose proof (Z.log2_spec x Hx) as [_ Hlt].
    assert (Z.succ (Z.log2 x) <= 3 * q).
    { unfold start in Hq. fold x in Hq.
      pose proof (Z.mul_succ_div_gt (Z.log2 x) 3 ltac:(lia)). lia. }
    assert (2 ^ Z.succ (Z.log2 x) <= 2 ^ (3 * q)) by (apply Z.pow_le_mono_r; lia).
    assert (2 ^ (3 * q) <= 10 ^ q).
    { rewrite Z.pow_mul_r by lia. change (2 ^ 3) with 8.
      apply Z.pow_le_mono_l. lia. }
    lia. }
  assert (Hup : upper m e < denominator e * 10 ^ q).
  { pose proof (Z.mul_succ_div_gt (upper m e) (denominator e) HD). unfold x in Hpow. nia. }
  unfold within, num, den. destruct (q <? 0) eqn:E; [lia|].
  destruct (Z_le_gt_dec k 0) as [Hk|Hk].
  - assert (k * (denominator e * 10 ^ q) <= 0) by nia.
    destruct (Z.even (Z.pos m)); apply andb_false_intro1;
      rewrite ?Z.leb_gt, ?Z.ltb_ge; lia.
  - assert (denominator e * 10 ^ q <= k * (denominator e * 10 ^ q)) by nia.
    destruct (Z.even (Z.pos m)); apply andb_false_intro2;
      rewrite ?Z.leb_gt, ?Z.ltb_ge; lia.
Qed.

(** The digits [shortest] returns read back as the float, no shorter
    decimal does, and they end in no zero that the point does not
    need. *)
Lemma shortest_spec m e n q :
  -1074 <= e -> Strconv.shortest m e = (n, q) ->
  0 < n /\ readsBack m e n q = true
  /\ (forall n' q', q < q' -> readsBack m e n' q' = false)
  /\ (q < 0 -> n mod 10 <> 0).
Proof.
  intros He Hs. rewrite shortest_search in Hs.
  pose proof (start_pos m e) as Hstart.
  destruct (middle_within m e) as (q0 & k0 & Hq0 & Hin).
  destruct (search_spec (middle m e) (lower m e) (upper m e) (denominator e)
              (Z.even (Z.pos m)) (denominator_pos e) (lower_middle m e) (middle_upper m e)
              (Z.to_nat (start m e + 1078)) (start m e) q0 k0 n q
              ltac:(lia) Hin Hs) as (Hq & Hw & Hmax).
  assert (Hnone : forall n' q', q < q' -> readsBack m e n' q' = false).
  { intros n' q' Hlt. unfold readsBack.
    destruct (Z_le_gt_dec q' (start m e)); [apply Hmax; lia|apply above_start; lia]. }
  split; [exact (within_pos (middle m e) _ _ _ _ (denominator_pos e) (lower_pos m e)
                  (lower_middle m e) (middle_upper m e) q n Hw)|].
  split; [done|]. split; [done|].
  intros Hneg Hmod.
  assert (Hn : n = 10 * (n / 10)) by (pose proof (Z.div_mod n 10); lia).
  unfold readsBack in Hnone. rewrite Hn, within_tenfold in Hw by done.
  rewrite Hnone in Hw by lia. done.
Qed.

Lemma cut_first (sep : ascii) (k v : string) :
  cut sep k = None -> cut sep (k +:+ String sep v) = Some (k, v).
Proof.
  induction k as [|c k IH]; intros H.
  - simpl. by rewrite Ascii.eqb_refl.
  - change (String c k +:+ String sep v) with (String c (k +:+ String sep v)).
    simpl in *. destruct (Ascii.eqb c sep); [done|].
    destruct (cut sep k) as [[? ?]|]; [done|]. by rewrite IH.
Qed.

Lemma bytes_cons c s : bytes (String c s) = c :: bytes s.
Proof. reflexivity. Qed.

Lemma length_bytes s : length (bytes s) = String.length s.
Proof. induction s as [|c s IH]; [done|]. rewrite bytes_cons. simpl. by rewrite IH. Qed.

Lemma bytes_append (a b : string) : bytes (a +:+ b) = bytes a ++ bytes b.
Proof.
  unfold bytes. induction a as [|c a IH]; [done|].
  change (String c a +:+ b) with (String c (a +:+ b)). simpl. by rewrite IH.
Qed.

Lemma bytes_substring (a b : nat) (s : string) :
  bytes (substring a b s) = take b (drop a (bytes s)).
Proof.
  revert a b. induction s as [|c s IH]; intros a b.
  - destruct a, b; reflexivity.
  - destruct a as [|a].
    + destruct b as [|b]; [reflexivity|].
      simpl substring. rewrite !bytes_cons. simpl. by rewrite (IH 0%nat b).
    + simpl substring. rewrite bytes_cons. simpl. apply IH.
Qed.

Lemma str_bytes s : str (bytes s) = s.
Proof. apply string_of_list_ascii_of_string. Qed.

Lemma bytes_inj a b : bytes a = bytes b -> a = b.
Proof. intros H. by rewrite <- (str_bytes a), <- (str_bytes b), H. Qed.

(** *** The digits of a number *)

Lemma string_of_uint_digits d : forallb isDigit (bytes (NilEmpty.string_of_uint d)) = true.
Proof. induction d; simpl; try done; rewrite bytes_cons; simpl; exact IHd. Qed.

Lemma digits_numeral n : numeral (Strconv.digits n) = true.
Proof.
  unfold numeral, Strconv.digits, NilZero.string_of_uint.
  destruct (N.to_uint (Z.to_N n)) eqn:E; try done;
    rewrite <- E at 2; rewrite string_of_uint_digits; by rewrite ?E.
Qed.

Lemma last_digit d d' :
  d <> Decimal.Nil ->
  last (bytes (NilEmpty.string_of_uint d)) = Some "0"%char ->
  Unsigned.hd (Decimal.revapp d d') = 0%N.
Proof.
  revert d'. induction d as [|d IH|d IH|d IH|d IH|d IH|d IH|d IH|d IH|d IH|d IH];
    intros d' _; [done|..];
    (assert (d = Decimal.Nil \/ d <> Decimal.Nil) as [->|Hd]
       by (destruct d; [left|right..]; done);
     [simpl; intros Hx; first [reflexivity | discriminate Hx]|]);
    simpl NilEmpty.string_of_uint; rewrite bytes_cons;
    (destruct (bytes (NilEmpty.string_of_uint d)) as [|c l] eqn:E;
     [by destruct d|]);
    change (last (?x :: c :: l)) with (last (c :: l)); intros Hl; simpl;
    apply IH; done.
Qed.

Lemma digits_last n :
  0 < n -> n mod 10 <> 0 -> last (bytes (Strconv.digits n)) <> Some "0"%char.
Proof.
  intros Hn Hmod Hl. unfold Strconv.digits, NilZero.string_of_uint in Hl.
  pose proof (DecimalN.Unsigned.of_to (Z.to_N n)) as Hof.
  destruct (Z.to_N n) as [|p] eqn:En; [lia|].
  simpl N.to_uint in *.
  pose proof (Unsigned.to_uint_nonnil p) as Hnil.
  assert (Hs : last (bytes (NilEmpty.string_of_uint (Pos.to_uint p))) = Some "0"%char).
  { by destruct (Pos.to_uint p). }
  apply (last_digit _ Decimal.Nil Hnil) in Hs.
  change (N.of_uint (Pos.to_uint p)) with (Pos.of_uint (Pos.to_uint p)) in Hof.
  rewrite Unsigned.of_uint_alt, Unsigned.of_lu_eqn in Hof.
  unfold Decimal.rev in Hof. rewrite Hs in Hof.
  apply Hmod. replace n with (Z.of_N (N.pos p)) by lia. rewrite <- Hof.
  rewrite N.add_0_l, N2Z.inj_mul. change (Z.of_N 10) with 10.
  by rewrite Z.mul_comm, Z.mod_mul.
Qed.


Lemma forallb_take {A} (f : A -> bool) k l : forallb f l = true -> forallb f (take k l) = true.
Proof.
  revert k. induction l as [|x l IH]; intros [|k] H; try done.
  simpl in *. apply andb_prop in H as [-> H]. by apply IH.
Qed.

Lemma forallb_drop {A} (f : A -> bool) k l : forallb f l = true -> forallb f (drop k l) = true.
Proof.
  revert k. induction l as [|x l IH]; intros [|k] H; try done.
  simpl in *. apply andb_prop in H as [_ H]. by apply IH.
Qed.

Lemma zeros_digits k : forallb isDigit (bytes (Strconv.zeros k)) = true.
Proof.
  induction k as [|k IH]; [done|].
  change (bytes (Strconv.zeros (S k))) with ("0"%char :: bytes (Strconv.zeros k)).
  cbn [forallb]. by rewrite IH.
Qed.

Lemma no_point w : forallb isDigit (bytes w) = true -> cut "." w = None.
Proof.
  induction w as [|c w IH]; [done|].
  rewrite bytes_cons. simpl. intros [Hc Hw]%andb_prop. rewrite (IH Hw).
  destruct (Ascii.eqb_spec c ".") as [->|_]; [done|reflexivity].
Qed.

Lemma cut_point w f :
  forallb isDigit (bytes w) = true -> cut "." (w +:+ "." +:+ f) = Some (w, f).
Proof. intros H. apply (cut_first "." w f), no_point, H. Qed.

Lemma numeral_intro s :
  (0 < String.length s)%nat -> forallb isDigit (bytes s) = true -> numeral s = true.
Proof.
  intros Hl Hd. unfold numeral. rewrite Hd.
  destruct (String.length s); [lia|done].
Qed.

Lemma numeral_elim s :
  numeral s = true -> (0 < String.length s)%nat /\ forallb isDigit (bytes s) = true.
Proof.
  unfold numeral. intros [Hl Hd]%andb_prop. split; [|done].
  destruct (String.length s); [done|lia].
Qed.

Lemma last_app_r {A} (a b : list A) : b <> [] -> last (a ++ b) = last b.
Proof.
  intros Hb. rewrite last_app. destruct (last b) eqn:E; [done|].
  by apply last_None in E.
Qed.

Lemma fixed_unsignedDecimal n q :
  0 < n -> (q < 0 -> n mod 10 <> 0) ->
  unsignedDecimal (Strconv.fixed n q) = true
  /\ exists c r, Strconv.fixed n q = String c r /\ isDigit c = true.
Proof.
  intros Hn Hq.
  destruct (numeral_elim _ (digits_numeral n)) as [Hlen Hdig].
  assert (Hhead : exists c r, Strconv.digits n = String c r /\ isDigit c = true).
  { destruct (Strconv.digits n) as [|c r]; [simpl in Hlen; lia|].
    rewrite bytes_cons in Hdig. simpl in Hdig. apply andb_prop in Hdig as [Hc _].
    by exists c, r. }
  unfold Strconv.fixed. cbv zeta.
  destruct (0 <=? q) eqn:E.
  { split.
    - unfold unsignedDecimal.
      assert (Hd : forallb isDigit (bytes (Strconv.digits n +:+ Strconv.zeros (Z.to_nat q)))
                   = true).
      { rewrite bytes_append, forallb_app, Hdig, zeros_digits. done. }
      rewrite (no_point _ Hd). apply numeral_intro; [|done].
      rewrite length_append. lia.
    - destruct Hhead as (c & r & -> & Hc). by exists c, (r +:+ Strconv.zeros (Z.to_nat q)). }
  apply Z.leb_gt in E. specialize (Hq E).
  pose proof (digits_last n Hn Hq) as Hlast.
  set (s := Strconv.digits n) in *.
  set (frac := Z.to_nat (- q)).
  assert (Hfrac : (0 < frac)%nat) by (unfold frac; lia).
  destruct (frac <? String.length s)%nat eqn:E2.
  - apply Nat.ltb_lt in E2.
    set (w := substring 0 (String.length s - frac) s).
    set (f := substring (String.length s - frac) frac s).
    assert (Hw : bytes w = take (String.length s - frac) (bytes s)).
    { unfold w. by rewrite bytes_substring. }
    assert (Hf : bytes f = drop (String.length s - frac) (bytes s)).
    { unfold f. rewrite bytes_substring. apply take_ge.
      rewrite length_drop, length_bytes. lia. }
    assert (Hwd : forallb isDigit (bytes w) = true) by (rewrite Hw; by apply forallb_take).
    assert (Hfd : forallb isDigit (bytes f) = true) by (rewrite Hf; by apply forallb_drop).
    assert (Hwl : (0 < String.length w)%nat).
    { rewrite <- length_bytes, Hw, length_take, length_bytes. lia. }
    assert (Hfl : (0 < String.length f)%nat).
    { rewrite <- length_bytes, Hf, length_drop, length_bytes. lia. }
    split.
    + unfold unsignedDecimal. rewrite (cut_point w f Hwd).
      rewrite (numeral_intro w Hwl Hwd), (numeral_intro f Hfl Hfd). simpl.
      apply negb_true_iff, bool_decide_eq_false. intros Hl. apply Hlast.
      rewrite <- (take_drop (String.length s - frac) (bytes s)), <- Hf.
      rewrite last_app_r; [done|].
      intros Hnil. rewrite <- length_bytes, Hnil in Hfl. simpl in Hfl. lia.
    + destruct Hhead as (c & r & Hs & Hc). exists c.
      assert (Hk : exists k, (String.length s - frac)%nat = S k)
        by (exists (String.length s - frac - 1)%nat; lia).
      destruct Hk as [k Hk]. unfold w. rewrite Hk. fold s in Hs. rewrite Hs. simpl.
      eexists. split; [reflexivity|done].
  - apply Nat.ltb_ge in E2. split.
    + unfold unsignedDecimal. change ("0." +:+ ?x) with ("0" +:+ "." +:+ x).
      rewrite (cut_point "0" _ eq_refl). change (numeral "0") with true.
      set (f := Strconv.zeros (frac - String.length s) +:+ s).
      assert (Hfd : forallb isDigit (bytes f) = true).
      { unfold f. by rewrite bytes_append, forallb_app, zeros_digits, Hdig. }
      assert (Hfl : (0 < String.length f)%nat).
      { unfold f. rewrite length_append. lia. }
      rewrite (numeral_intro f Hfl Hfd). simpl.
      apply negb_true_iff, bool_decide_eq_false. intros Hl. apply Hlast.
      unfold f in Hl. rewrite bytes_append, last_app_r in Hl; [done|].
      intros Hnil. rewrite <- length_bytes, Hnil in Hlen. simpl in Hlen. lia.
    + by exists "0"%char, ("." +:+ Strconv.zeros (frac - String.length s) +:+ s).
Qed.

(** *** Finite and infinite floats *)

Lemma finite_cases f :
  is_finite f = true ->
  (exists s, Prim2SF f = S754_zero s)
  \/ (exists s m e, Prim2SF f = S754_finite s m e /\ -1074 <= e).
Proof.
  unfold is_finite. intros [Hnan Hinf]%negb_true_iff%orb_false_elim.
  pose proof (Prim2SF_valid f) as Hvalid.
  unfold Prim2SF in *. rewrite Hnan, Hinf in *.
  destruct (is_zero f); [left; by eexists|].
  destruct (Z.frexp f) as [r ex].
  destruct (shr_fexp prec emax (Uint63.to_Z (normfr_mantissa r)) (ex - prec) loc_Exact)
    as [shr e'].
  destruct (shr_m shr) as [|p|p]; [left; by eexists| |left; by eexists].
  right. exists (get_sign f), p, e'. split; [done|].
  simpl in Hvalid. unfold bounded, canonical_mantissa, fexp in Hvalid.
  apply andb_prop in Hvalid as [Hc _]. apply Z.eqb_eq in Hc.
  change (SpecFloat.emin prec emax) with (-1074) in Hc. lia.
Qed.

Lemma infinite_cases f :
  is_finite f = false ->
  Prim2SF f = S754_nan \/ exists s, Prim2SF f = S754_infinity s.
Proof.
  unfold is_finite. intros H%negb_false_iff.
  destruct (is_nan f) eqn:Hnan.
  { left. unfold Prim2SF. by rewrite Hnan. }
  simpl in H. right.
  destruct (is_zero f) eqn:Hzero.
  - exfalso. assert (Hf : Prim2SF f = S754_zero (get_sign f)).
    { unfold Prim2SF. by rewrite Hnan, Hzero. }
    unfold is_infinity in H. rewrite FloatAxioms.eqb_spec, abs_spec, Hf in H.
    vm_compute in H. discriminate H.
  - exists (get_sign f). unfold Prim2SF. by rewrite Hnan, Hzero, H.
Qed.

Lemma unsignedDecimal_decimal x :
  unsignedDecimal x = true -> (exists c r, x = String c r /\ isDigit c = true) ->
  decimal x = true /\ decimal ("-" +:+ x) = true
  /\ tight x = true /\ tight ("-" +:+ x) = true.
Proof.
  intros Hu (c & r & -> & Hc).
  assert (Hminus : Ascii.eqb c "-" = false).
  { destruct (Ascii.eqb_spec c "-") as [->|]; [done|reflexivity]. }
  unfold decimal, tight, unsignedDecimal in *.
  change ("-" +:+ String c r) with (String "-" (String c r)).
  cbn [cut]. change (Ascii.eqb "-" ".") with false. cbn iota.
  change (Ascii.eqb "-" "-") with true. cbn iota.
  rewrite Hminus.
  change (if Ascii.eqb c "." then Some (EmptyString, r)
          else match cut "." r with
               | Some (before, after) => Some (String c before, after)
               | None => None
               end) with (cut "." (String c r)) in *.
  destruct (cut "." (String c r)) as [[w f]|]; [|done].
  apply andb_prop in Hu as [Hu ->]. by rewrite Hu.
Qed.

(** What [strconv.FormatFloat (f, 'f', -1, 64)] writes. *)
Lemma FormatFloat_finite f :
  is_finite f = true ->
  decimal (Strconv.FormatFloat f) = true /\ tight (Strconv.FormatFloat f) = true.
Proof.
  intros [[s Hf]|(s & m & e & Hf & He)]%finite_cases;
    unfold Strconv.FormatFloat; rewrite Hf.
  - by destruct s.
  - destruct (Strconv.shortest m e) as [n q] eqn:Hs.
    destruct (shortest_spec m e n q He Hs) as (Hn & _ & _ & Hq).
    destruct (fixed_unsignedDecimal n q Hn Hq) as [Hu Hh].
    destruct (unsignedDecimal_decimal _ Hu Hh) as (H1 & H2 & H3 & H4).
    by destruct s.
Qed.

Lemma FormatFloat_infinite f :
  is_finite f = false -> Strconv.FormatFloat f ∈ ["NaN"; "+Inf"; "-Inf"].
Proof.
  intros [Hf|[s Hf]]%infinite_cases; unfold Strconv.FormatFloat; rewrite Hf.
  - apply list_elem_of_here.
  - destruct s; repeat constructor.
Qed.

Lemma cut_inv sep s a b : cut sep s = Some (a, b) -> s = a +:+ String sep b.
Proof.
  revert a b. induction s as [|c s IH]; intros a b; [done|].
  simpl. destruct (Ascii.eqb_spec c sep) as [->|_].
  - by intros [= <- <-].
  - destruct (cut sep s) as [[a' b']|]; [|done].
    intros [= <- <-]. by rewrite (IH a' b' eq_refl).
Qed.


Lemma digit_numeric l : forallb isDigit l = true -> forallb numeric l = true.
Proof.
  induction l as [|c l IH]; [done|]. simpl. intros [Hc Hl]%andb_prop.
  unfold numeric at 1. rewrite Hc. simpl. by apply IH.
Qed.

Lemma decimal_numeric s : decimal s = true -> forallb numeric (bytes s) = true.
Proof.
  assert (Hu : forall u,
             match cut "." u with
             | Some (whole, fraction) => numeral whole && numeral fraction
             | None => numeral u
             end = true -> forallb numeric (bytes u) = true).
  { intros u. destruct (cut "." u) as [[w f]|] eqn:E.
    - apply cut_inv in E as ->. intros [Hw Hf]%andb_prop.
      apply numeral_elim in Hw as [_ Hw]. apply numeral_elim in Hf as [_ Hf].
      change (String "." f) with ("." +:+ f).
      rewrite !bytes_append, !forallb_app, (digit_numeric _ Hw), (digit_numeric _ Hf). done.
    - intros [_ H]%numeral_elim. by apply digit_numeric. }
  unfold decimal. destruct s as [|c r]; [done|].
  destruct (Ascii.eqb_spec c "-") as [->|_]; [|apply Hu].
  intros H. rewrite bytes_cons. simpl. by apply Hu.
Qed.

Lemma numeric_occurrences c l :
  numeric c = false -> forallb numeric l = true -> length (filter (fun x => x = c) l) = 0%nat.
Proof.
  intros Hc. induction l as [|x l IH]; [done|].
  simpl. intros [Hx Hl]%andb_prop. rewrite filter_cons_False; [by apply IH|].
  intros ->. congruence.
Qed.

(** Whatever the float, its text has no [;] and no space. *)
Lemma FormatFloat_separators f :
  occurrences ";" (Strconv.FormatFloat f) = 0%nat
  /\ occurrences " " (Strconv.FormatFloat f) = 0%nat.
Proof.
  destruct (is_finite f) eqn:E.
  - destruct (FormatFloat_finite f E) as [Hd _]. apply decimal_numeric in Hd.
    split; by apply numeric_occurrences.
  - pose proof (FormatFloat_infinite f E) as Hin.
    repeat (apply elem_of_cons in Hin as [->|Hin]; [by split|]).
    by apply elem_of_nil in Hin.
Qed.

End Numbers.

(** ** Performance tags *)

Section Tags.

Context {W : World}.

(** C2 (as amended).  In a build whose [strconv.FormatFloat] is the one
    written out in [Strconv]: the loop over the lines leaves in the
    buffer the tags of all metrics of all lines, a space before each; a
    metric has a tag if and only if its value is present; the tag is the
    quoted alias, [=], the value, the unit if present, and warning,
    critical, minimum and maximum each after a [;] if present and left
    out otherwise, without a placeholder: a metric with a value only has
    the tag ['<alias>'=<value>].  A finite number is written in decimal
    notation without an exponent and without a zero at the end of its
    fraction: the digits of the shortest decimal that reads back as the
    number, none that is shorter does.  A number that is not finite is
    written as [+Inf], [-Inf] or [NaN].  No number has a [;] or a space
    in it. *)
Theorem tags_in_the_buffer (lines : list Line) (msg buf : string) :
  (forall f, FormatFloat f "f" (-1) 64 = Strconv.FormatFloat f) ->
  (foldl line (msg, buf) lines).2 = buf +:+ spaced (tags lines)
  /\ (forall p b, perf b p = b +:+ spaced (option_list (tag p)))
  /\ (forall p, is_Some (tag p) <-> is_Some (Value (IntValue_ p)))
  /\ (forall alias value unit_ warning critical minimum maximum,
      tag (mkPerf alias (mkIntValue (Some value) unit_ warning critical minimum maximum)) =
      Some ("'" +:+ alias +:+ "'=" +:+ FormatFloat value "f" (-1) 64
            +:+ default EmptyString unit_
            +:+ field warning +:+ field critical +:+ field minimum +:+ field maximum))
  /\ (forall x, field (Some x) = ";" +:+ FormatFloat x "f" (-1) 64)
  /\ field None = EmptyString
  /\ (forall alias value,
      tag (mkPerf alias (mkIntValue (Some value) None None None None None)) =
      Some ("'" +:+ alias +:+ "'=" +:+ FormatFloat value "f" (-1) 64))
  /\ (forall alias value critical,
      tag (mkPerf alias (mkIntValue (Some value) None None (Some critical) None None)) =
      Some ("'" +:+ alias +:+ "'=" +:+ FormatFloat value "f" (-1) 64
            +:+ ";" +:+ FormatFloat critical "f" (-1) 64))
  /\ (forall x, is_finite x = true ->
      decimal (FormatFloat x "f" (-1) 64) = true
      /\ tight (FormatFloat x "f" (-1) 64) = true)
  /\ (forall x s m e, Prim2SF x = S754_finite s m e ->
      exists n q,
        FormatFloat x "f" (-1) 64 = (if s then "-" else EmptyString) +:+ Strconv.fixed n q
        /\ (0 < n)%Z
        /\ Shortest.readsBack m e n q = true
        /\ (forall n' q', (q < q')%Z -> Shortest.readsBack m e n' q' = false)
        /\ ((q < 0)%Z -> (n mod 10)%Z <> 0%Z))
  /\ (forall x s, Prim2SF x = S754_zero s ->
      FormatFloat x "f" (-1) 64 = if s then "-0" else "0")
  /\ (forall x, is_finite x = false ->
      FormatFloat x "f" (-1) 64 ∈ ["NaN"; "+Inf"; "-Inf"])
  /\ (forall x, occurrences ";" (FormatFloat x "f" (-1) 64) = 0%nat
                /\ occurrences " " (FormatFloat x "f" (-1) 64) = 0%nat).
Proof.
  intros Hgo.
  split; [by rewrite lines_tags|].
  split; [intros; apply perf_tag|].
  split.
  { intros p. unfold tag. destruct (Value (IntValue_ p)); split; intros [x Hx]; by eauto. }
  split; [done|]. split; [done|]. split; [done|].
  split; [intros; unfold tag, field, fmtFloat; simpl; by rewrite ?append_nil_r|].
  split; [intros; unfold tag, field, fmtFloat; simpl; by rewrite ?append_nil_r|].
  split; [intros x Hx; rewrite Hgo; by apply FormatFloat_finite|].
  split.
  { intros x s m e Hx. rewrite Hgo. unfold Strconv.FormatFloat. rewrite Hx.
    assert (He : (-1074 <= e)%Z).
    { pose proof (Prim2SF_valid x) as Hvalid. rewrite Hx in Hvalid.
      simpl in Hvalid. unfold bounded, canonical_mantissa, fexp in Hvalid.
      apply andb_prop in Hvalid as [Hc _]. apply Z.eqb_eq in Hc.
      change (SpecFloat.emin prec emax) with (-1074)%Z in Hc. lia. }
    destruct (Strconv.shortest m e) as [n q] eqn:Hs.
    exists n, q. split; [done|]. by apply shortest_spec. }
  split; [intros x s Hx; rewrite Hgo; unfold Strconv.FormatFloat; by rewrite Hx|].
  split; [intros x Hx; rewrite Hgo; by apply FormatFloat_infinite|].
  intros x. rewrite Hgo. apply FormatFloat_separators.
Qed.

End Tags.

(** ** Decoding the response *)

Section Decoding.

Import Json.

Context {toolchain : Decoder}.

Lemma matches_true name key :
  matches name key = true -> foldName (bytes key) = foldName (bytes name).
Proof. unfold matches. by case_decide. Qed.

Lemma matches_other name name' key :
  foldName (bytes name) <> foldName (bytes name') ->
  matches name key = true -> matches name' key = false.
Proof.
  intros Hne H%matches_true. unfold matches. case_decide; [congruence|done].
Qed.




Lemma decode_slice_nil {T} (zero : T) dec (j : value) s :
  holdsEntries j = false -> (decode_slice zero dec nilSlice j s).1 = nilSlice.
Proof. destruct j as [| | | |[|]|]; by intros. Qed.

Lemma field_Query_payload key j v s :
  (matches "payload" key = true -> holdsEntries j = false) ->
  Payload v = nilSlice -> Payload (field_Query key j v s).1 = nilSlice.
Proof.
  intros Hj Hv. unfold field_Query, bind, ret.
  destruct (matches "header" key).
  { by destruct (decode_Header (Header_ v) j s). }
  destruct (matches "payload" key); [|done].
  rewrite Hv.
  pose proof (decode_slice_nil zeroPayloadEntry decode_PayloadEntry j s (Hj eq_refl)) as H.
  by destruct (decode_slice zeroPayloadEntry decode_PayloadEntry nilSlice j s).
Qed.

Lemma decode_members_payload members v s :
  Forall (fun m => matches "payload" m.1 = true -> holdsEntries m.2 = false) members ->
  Payload v = nilSlice -> Payload (decode_members field_Query members v s).1 = nilSlice.
Proof.
  intros H. revert v s. induction H as [|[key j] members Hkey _ IH]; intros v s Hv; [done|].
  simpl. unfold bind.
  destruct (field_Query key j v s) as [v' s'] eqn:E.
  apply IH. change v' with (v', s').1. rewrite <- E.
  by apply field_Query_payload.
Qed.

(** From a body without entries the decoder leaves the payload empty. *)
Lemma Decode_without_entries body :
  withoutEntries body -> Payload (Decode body zeroQuery).1 = nilSlice.
Proof.
  destruct body as [[| | | | |members]|]; try done.
  intros H. by apply decode_members_payload.
Qed.

(** From a body that is not a JSON object it leaves the whole structure as
    it was. *)
Lemma Decode_shapeless body : shapeless body -> (Decode body zeroQuery).1 = zeroQuery.
Proof. by destruct body as [[| | | | |members]|]. Qed.

End Decoding.

Section Minimum.

Context {W : World}.

Import Json.


End Minimum.

Section Malformed.

Context {W : World}.

(** C5 (as the code has it).  For a body that is not well-formed JSON,
    or whose value is not an object, or in which no [payload] member is an
    array with an element, no error of the decoder comes to the surface
    and the payload stays empty (the whole structure zero-valued in the
    first two cases), so the run takes the unknown-outcome path with exit
    status 3, as for a well-formed response with an empty payload. *)
Theorem body_without_entries_is_unknown cl req res :
  given cl -> exchange cl = Some (req, res) -> Args cl <> [] ->
  withoutEntries (Body res) ->
  Payload (decoded cl res) = nilSlice
  /\ (shapeless (Body res) -> decoded cl res = zeroQuery)
  /\ exitCode (run (main cl)) = 3%Z
  /\ last (out (run (main cl))) = Some ("UNKNOWN: The resultpayload size is 0" +:+ nl)
  /\ err (run (main cl)) = [].
Proof.
  intros Hgiven Hex Hargs Hbody.
  assert (Hleft : withoutEntries (remaining cl res)).
  { unfold remaining. by destruct (flagVerbose cl), (DrainBody res). }
  pose proof (Decode_without_entries (remaining cl res) Hleft) as Hpay.
  fold (decoded cl res) in Hpay.
  split; [done|]. split.
  { intros Hshape. apply Decode_shapeless. unfold remaining.
    by destruct (flagVerbose cl), (DrainBody res). }
  rewrite (run_exchange cl req res Hgiven Hex). simpl.
  unfold verdict. destruct (Args cl); [done|]. rewrite Hpay. simpl.
  split; [done|]. split; [|done].
  by rewrite !app_assoc, last_snoc.
Qed.

End Malformed.

(** ** The request *)

Section Query.

Context {W : World}.

Lemma substring_all (s : string) : substring 0 (String.length s) s = s.
Proof. induction s as [|c s IH]; [done|]. simpl. by rewrite IH. Qed.

Lemma Index_cut (s : string) (sep : ascii) :
  match Strings.Index s (String sep EmptyString) with
  | Some m =>
    cut sep s =
    Some (substring 0 m s, substring (m + 1) (String.length s - (m + 1)) s)
  | None => cut sep s = None
  end.
Proof.
  unfold Strings.Index. induction s as [|c s IH]; [done|].
  simpl. destruct (ascii_dec sep c) as [->|Hne].
  - rewrite Ascii.eqb_refl. destruct s; simpl; [done|]. by rewrite substring_all.
  - destruct (Ascii.eqb_spec c sep) as [->|_]; [done|].
    destruct (String.index 0 (String sep "") s) as [m|]; simpl in *; by rewrite IH.
Qed.

(** [strings.SplitN (s, "=", 2)] splits at the first [=]. *)
Lemma SplitN_cut (s : string) (sep : ascii) :
  Strings.SplitN s (String sep EmptyString) 2 =
  match cut sep s with
  | Some (before, after) => [before; after]
  | None => [s]
  end.
Proof.
  unfold Strings.SplitN. simpl.
  pose proof (Index_cut s sep) as H.
  destruct s as [|c s]; [done|].
  rewrite Z.min_l by (simpl String.length; lia).
  change (Z.to_nat (2 - 1)) with 1%nat. cbn [Strings.pieces].
  destruct (Strings.Index (String c s) (String sep "")) as [m|]; by rewrite H.
Qed.

Lemma parameter_keyValue (m : Url.Values) (a : string) :
  parameter m a = Url.Add m (keyValue a).1 (keyValue a).2.
Proof.
  unfold parameter, keyValue. rewrite (SplitN_cut a "=").
  by destruct (cut "=" a) as [[k v]|].
Qed.

Lemma parameters_keyValues (m : Url.Values) (rest : list string) :
  foldl parameter m rest =
  foldl (fun m kv => Url.Add m kv.1 kv.2) m (keyValue <$> rest).
Proof.
  revert m. induction rest as [|a rest IH]; intros m; [done|].
  simpl. by rewrite IH, parameter_keyValue.
Qed.

Lemma Add_values (ps : list (string * string)) (m : Url.Values) (k : string) :
  default [] (foldl (fun m kv => Url.Add m kv.1 kv.2) m ps !! k) =
  default [] (m !! k) ++ valuesOf k ps.
Proof.
  revert m. induction ps as [|[k' v'] ps IH]; intros m.
  - simpl. unfold valuesOf. simpl. by rewrite app_nil_r.
  - simpl. rewrite IH. unfold Url.Add, valuesOf.
    destruct (decide (k' = k)) as [->|Hne].
    + rewrite lookup_insert_eq, filter_cons_True by done. simpl.
      by rewrite <- app_assoc.
    + rewrite lookup_insert_ne, filter_cons_False by done. done.
Qed.

Lemma filter_key (k : string) (ps : list (string * string)) :
  filter (fun kv => kv.1 = k) ps = (fun x => (k, x)) <$> valuesOf k ps.
Proof.
  unfold valuesOf. induction ps as [|[k' v'] ps IH]; [done|].
  destruct (decide (k' = k)) as [->|Hne].
  - rewrite filter_cons_True by done. rewrite !fmap_cons. simpl. f_equal. exact IH.
  - by rewrite filter_cons_False.
Qed.

(** The pair that [writePair] appends is never empty. *)
Lemma writePair_nonempty ek b v : String.length (Url.writePair ek b v) <> 0%nat.
Proof.
  unfold Url.writePair. rewrite !length_append. simpl. lia.
Qed.

Lemma steps_nonempty (ps : list (string * string)) (b : string) :
  String.length b <> 0%nat ->
  foldl writeKV b ps =
  match ps with
  | [] => b
  | _ => b +:+ "&" +:+ queryString ps
  end.
Proof.
  revert b. induction ps as [|[k v] ps IH]; intros b Hb; [done|].
  simpl foldl. rewrite IH by apply writePair_nonempty.
  unfold writeKV, Url.writePair. simpl fst. simpl snd.
  destruct (String.length b =? 0)%nat eqn:E; [by apply Nat.eqb_eq in E|].
  destruct ps as [|[k' v'] ps]; simpl queryString; by rewrite !append_assoc.
Qed.

Lemma steps_queryString (ps : list (string * string)) :
  foldl writeKV EmptyString ps = queryString ps.
Proof.
  destruct ps as [|[k v] ps]; [done|].
  simpl foldl. rewrite steps_nonempty by apply writePair_nonempty.
  unfold writeKV, Url.writePair. simpl.
  destruct ps as [|[k' v'] ps]; simpl queryString; [done|].
  by rewrite !append_assoc.
Qed.

Lemma Encode_grouped (v : Url.Values) (keys : list string) (b : string) :
  foldl (fun buf k => foldl (Url.writePair (Url.QueryEscape k)) buf (default [] (v !! k)))
    b keys =
  foldl writeKV b (grouped v keys).
Proof.
  revert b. induction keys as [|k keys IH]; intros b; [done|].
  unfold grouped. simpl. rewrite foldl_app. fold (grouped v keys). rewrite <- IH.
  f_equal. by rewrite foldl_fmap.
Qed.

(** [Values.Encode] writes the query string of the pairs in its order. *)
Lemma Encode_queryString (v : Url.Values) : Url.Encode v = queryString (encoded v).
Proof. unfold Url.Encode, encoded. by rewrite Encode_grouped, steps_queryString. Qed.

Lemma grouped_keys (v : Url.Values) (keys : list string) (k : string) :
  k ∈ (grouped v keys).*1 -> k ∈ keys.
Proof.
  induction keys as [|k' keys IH]; [done|].
  unfold grouped. simpl. rewrite fmap_app, elem_of_app.
  intros [H|H].
  - rewrite <- list_fmap_compose in H. apply list_elem_of_fmap in H as (x & -> & _).
    apply list_elem_of_here.
  - apply list_elem_of_further, IH, H.
Qed.

Lemma grouped_sorted (v : Url.Values) (keys : list string) :
  StronglySorted String.le keys -> StronglySorted String.le (grouped v keys).*1.
Proof.
  induction 1 as [|k keys Hs IH Hle]; [constructor|].
  unfold grouped. simpl. rewrite fmap_app. fold (grouped v keys).
  apply StronglySorted_app_2; [| |done].
  - intros x1 x2 H1 H2.
    rewrite <- list_fmap_compose in H1. apply list_elem_of_fmap in H1 as (x & -> & _).
    simpl. apply grouped_keys in H2. by eapply Forall_forall in Hle.
  - induction (default [] (v !! k)) as [|x xs IHx]; [constructor|].
    simpl. constructor; [done|].
    apply Forall_forall. intros y Hy.
    rewrite <- list_fmap_compose in Hy. apply list_elem_of_fmap in Hy as (z & -> & _).
    done.
Qed.

Lemma grouped_filter (v : Url.Values) (keys : list string) (k : string) :
  NoDup keys ->
  filter (fun kv => kv.1 = k) (grouped v keys) =
  if decide (k ∈ keys) then (fun x => (k, x)) <$> default [] (v !! k) else [].
Proof.
  induction 1 as [|k' keys Hnotin Hnodup IH]; [done|].
  unfold grouped. simpl. rewrite filter_app. fold (grouped v keys). rewrite IH.
  destruct (decide (k' = k)) as [->|Hne].
  - destruct (decide (k ∈ keys)) as [|_]; [done|].
    destruct (decide (k ∈ k :: keys)) as [_|Hn]; [|exfalso; apply Hn, list_elem_of_here].
    rewrite app_nil_r.
    induction (default [] (v !! k)) as [|x xs IHx]; [done|].
    rewrite fmap_cons, filter_cons_True by done. by rewrite IHx.
  - assert (Hnone : filter (fun kv : string * string => kv.1 = k)
                      ((fun x => (k', x)) <$> default [] (v !! k')) = []).
    { induction (default [] (v !! k')) as [|x xs IHx]; [done|].
      rewrite fmap_cons. by rewrite filter_cons_False. }
    rewrite Hnone. simpl.
    destruct (decide (k ∈ keys)) as [Hin|Hin].
    + destruct (decide (k ∈ k' :: keys)) as [_|Hn]; [done|].
      exfalso. by apply Hn, list_elem_of_further.
    + destruct (decide (k ∈ k' :: keys)) as [[?|?]%elem_of_cons|_]; done.
Qed.

Lemma encoded_filter (v : Url.Values) (k : string) :
  filter (fun kv => kv.1 = k) (encoded v) = (fun x => (k, x)) <$> default [] (v !! k).
Proof.
  unfold encoded. rewrite grouped_filter.
  - case_decide as Hin; [done|].
    rewrite merge_sort_Permutation, elem_of_elements, not_elem_of_dom in Hin.
    by rewrite Hin.
  - rewrite merge_sort_Permutation. apply NoDup_elements.
Qed.

(** C6.  With more than one positional argument the request path is the
    base path, [/query/] and the first argument, and the query string is
    made of the remaining tokens, each split at its first [=] into key
    and value (a token without [=] a key with an empty value): the pairs
    URL-encoded, joined by [&], ordered by key, and under each key in the
    order of the tokens. *)
Theorem query_of_arguments (urlStruct : Url.URL) (arg0 arg1 : string) (rest : list string) :
  Url.Path (target urlStruct (arg0 :: arg1 :: rest)) =
    Url.Path urlStruct +:+ "/query/" +:+ arg0
  /\ (exists ps,
      Url.RawQuery (target urlStruct (arg0 :: arg1 :: rest)) = queryString ps
      /\ StronglySorted String.le ps.*1
      /\ forall k, filter (fun kv => kv.1 = k) ps =
                   filter (fun kv => kv.1 = k) (keyValue <$> arg1 :: rest))
  /\ keyValue "foo=bar" = ("foo", "bar")
  /\ keyValue "foo" = ("foo", "")
  /\ keyValue "a=b=c" = ("a", "b=c")
  /\ Url.Path (target urlStruct ["checkname"; "foo=bar"]) =
       Url.Path urlStruct +:+ "/query/checkname"
  /\ Url.RawQuery (target urlStruct ["checkname"; "foo=bar"]) = "foo=bar"
  /\ Url.RawQuery (target urlStruct ["checkname"; "foo"]) = "foo="
  /\ Url.RawQuery (target urlStruct ["checkname"; "show-all"; "drive=c:"; "drive=d e"]) =
       "drive=c%3A&drive=d+e&show-all=".
Proof.
  split; [reflexivity|]. split.
  { change (Url.RawQuery (target urlStruct (arg0 :: arg1 :: rest)))
      with (Url.Encode (foldl parameter ∅ (arg1 :: rest))).
    rewrite Encode_queryString, parameters_keyValues.
    eexists. split; [reflexivity|]. split.
    - apply grouped_sorted, StronglySorted_merge_sort; apply _.
    - intros k. rewrite encoded_filter, Add_values, filter_key, lookup_empty. done. }
  repeat split; vm_compute; reflexivity.
Qed.

End Query.

(** ** The theorems at work *)

Section Examples.

Import Stub.

#[local] Existing Instance classic.

(** The end-to-end example of §8. *)
Example disk_low :
  run (@main (world (inr (Some diskLow))) (commandLine false ["check_drivesize"])) =
  mkOutcome 1 ["disk low|'used'=95.5%;80;90" +:+ nl] [] [] [BodyClose].
Proof. vm_compute. reflexivity. Qed.

Lemma exit_status_of_first_entry_witness :
  exitCode (run (@main (world (inr (Some severe))) (commandLine false ["check_cpu"]))) = 0%Z.
Proof.
  edestruct (@exit_status_of_first_entry (world (inr (Some severe)))
               (commandLine false ["check_cpu"])) as (_ & _ & E);
    [split; reflexivity | reflexivity | done | reflexivity | ].
  apply E. reflexivity.
Defined.

Lemma tags_in_the_buffer_witness :
  @tag (world (inr None))
    (mkPerf "load" (mkIntValue (Some 0.25%float) None None None None None))
  = Some "'load'=0.25"
  /\ decimal "0.25" = true /\ tight "0.25" = true.
Proof.
  destruct (@tags_in_the_buffer (world (inr None)) [] EmptyString EmptyString)
    as (_ & _ & _ & _ & _ & _ & E & _ & D & _).
  { intros f. reflexivity. }
  split; [rewrite E; vm_compute; reflexivity|].
  exact (D 0.25%float eq_refl).
Defined.

(** C2 as the specification states it fails for a value that is not
    finite: in a build whose decoder stores the infinity of a number
    literal out of range, the tag of such a value is written with
    [+Inf], which is no decimal notation.  (In a build with the classic
    decoder the same reply gives the value 0.) *)
Lemma infinite_value_is_not_decimal :
  out (run (@main (agent storing None (inr (Some overflow)))
              (commandLine false ["check_load"]))) =
    ["load high|'load'=+Inf" +:+ nl]
  /\ @tag (agent storing None (inr (Some overflow)))
       (mkPerf "load" (mkIntValue (Some infinity) None None None None None))
     = Some "'load'=+Inf"
  /\ decimal "+Inf" = false
  /\ out (run (@main (agent classic None (inr (Some overflow)))
                 (commandLine false ["check_load"]))) =
       ["load high|'load'=0" +:+ nl].
Proof. vm_compute. repeat split. Qed.

Lemma output_of_first_entry_witness :
  out (run (@main (world (inr (Some twoLines))) (commandLine false ["check_drivesize"]))) =
    ["disk d low|'c'=12 'd'=95.5%;90;100" +:+ nl]
  /\ exitCode (run (@main (world (inr (Some twoLines))) (commandLine false ["check_drivesize"])))
     = 1%Z.
Proof.
  edestruct (@output_of_first_entry (world (inr (Some twoLines)))
               (commandLine false ["check_drivesize"])) as (E1 & _ & _ & E2 & _);
    [split; reflexivity | reflexivity | done | reflexivity | ].
  rewrite E1, E2. split; vm_compute; reflexivity.
Defined.

Lemma empty_payload_is_unknown_witness :
  out (run (@main (world (inr (Some emptyPayload))) (commandLine false ["check_cpu"]))) =
    ["UNKNOWN: The resultpayload size is 0" +:+ nl]
  /\ exitCode (run (@main (world (inr (Some emptyPayload))) (commandLine false ["check_cpu"])))
     = 3%Z.
Proof.
  edestruct (@empty_payload_is_unknown (world (inr (Some emptyPayload)))
               (commandLine false ["check_cpu"])) as (E1 & _ & _ & E2);
    [split; reflexivity | reflexivity | done | reflexivity | ].
  rewrite E1, E2 by reflexivity. done.
Defined.

Lemma probe_is_ok_witness :
  out (run (@main (world (inr None)) (commandLine false []))) =
    ["OK: NSClient API reachable on https://10.1.2.3:8443" +:+ nl]
  /\ exitCode (run (@main (world (inr None)) (commandLine false []))) = 0%Z.
Proof.
  edestruct (@probe_is_ok (world (inr None)) (commandLine false []))
    as (E1 & _ & _ & E2); [split; reflexivity | reflexivity | reflexivity | ].
  rewrite E1, E2 by reflexivity. done.
Defined.



Lemma body_close_never_runs_witness :
  ran (run (@main (world (inr (Some diskLow))) (commandLine false []))) = []
  /\ pending (run (@main (world (inr (Some diskLow))) (commandLine false []))) = [BodyClose].
Proof.
  eapply (@body_close_never_runs (world (inr (Some diskLow))) (commandLine false []));
    [split; reflexivity | reflexivity].
Defined.


Lemma body_without_entries_is_unknown_witness :
  exitCode (run (@main (world (inr None)) (commandLine false ["check_cpu"]))) = 3%Z.
Proof.
  edestruct (@body_without_entries_is_unknown (world (inr None))
               (commandLine false ["check_cpu"])) as (_ & _ & E & _);
    [split; reflexivity | reflexivity | done | exact I | ].
  exact E.
Defined.

(** C5 as stated fails: a body of unexpected shape (here [lines] is a
    number, for which the decoder returns a type error) does not leave
    the zero-valued structure; the result string that was decoded before
    the error decides the exit status, 2 and not 3. *)
Lemma unexpected_shape_is_not_unknown :
  (Json.Decode (Some wrongLines) zeroQuery).2 =
    Some (Json.UnmarshalTypeError "number" "slice")
  /\ (Json.Decode (Some wrongLines) zeroQuery).1 <> zeroQuery
  /\ exitCode (run (@main (world (inr (Some wrongLines))) (commandLine false ["check_cpu"])))
     = 2%Z
  /\ out (run (@main (world (inr (Some wrongLines))) (commandLine false ["check_cpu"])))
     = [nl].
Proof.
  split; [reflexivity|]. split; [discriminate|]. split; vm_compute; reflexivity.
Qed.

Lemma end_to_end_disk_low_witness :
  last (out (run (@main (world (inr (Some diskLow))) (commandLine true ["check_drivesize"]))))
    = Some ("disk low|'used'=95.5%;80;90" +:+ nl)
  /\ exitCode (run (@main (world (inr (Some diskLow))) (commandLine true ["check_drivesize"])))
     = 1%Z.
Proof.
  eapply (@end_to_end_disk_low (world (inr (Some diskLow)))
            (commandLine true ["check_drivesize"]));
    [split; reflexivity | reflexivity | done | reflexivity
    | vm_compute; reflexivity | vm_compute; reflexivity | vm_compute; reflexivity].
Defined.

End Examples.

(** ** The flags *)

Section Flags.

Context {W : World}.

Lemma seen_lookup (names : list string) (seen : gmap string bool) (name : string) :
  foldl (fun seen name => <[name := true]> seen) seen names !! name =
  if decide (name ∈ names) then Some true else seen !! name.
Proof.
  revert seen. induction names as [|n names IH]; intros seen; [done|].
  simpl. rewrite IH.
  destruct (decide (name ∈ names)) as [Hin|Hnot].
  - by rewrite decide_True by by apply list_elem_of_further.
  - destruct (decide (n = name)) as [->|Hne].
    + rewrite decide_True by apply list_elem_of_here. by rewrite lookup_insert_eq.
    + rewrite lookup_insert_ne by done.
      rewrite decide_False; [done|]. intros [?|?]%elem_of_cons; congruence.
Qed.

Lemma seen_visited (cl : CommandLine) (name : string) :
  index false (seenFlags cl) name = true <-> name ∈ visited cl.
Proof.
  unfold index, seenFlags. rewrite seen_lookup.
  destruct (decide (name ∈ visited cl)); [done|]. by rewrite lookup_empty.
Qed.

Lemma main_required_flags cl :
  (given cl <-> "u" ∈ visited cl /\ "p" ∈ visited cl)
  /\ ("u" ∉ visited cl -> run (main cl) = mkOutcome 3 [] (missing cl "u") [] [])
  /\ ("u" ∈ visited cl -> "p" ∉ visited cl ->
      run (main cl) = mkOutcome 3 [] (missing cl "p") [] []).
Proof.
  split; [unfold given; by rewrite !seen_visited|].
  split.
  - intros Hu. rewrite <- seen_visited in Hu. apply not_true_is_false in Hu.
    unfold run, main, mbind, required. simpl. by rewrite Hu.
  - intros Hu Hp. rewrite <- seen_visited in Hu, Hp. apply not_true_is_false in Hp.
    unfold run, main, mbind, required. simpl. by rewrite Hu, Hp.
Qed.

Lemma main_writes_once cl :
  given cl ->
  err (run (main cl)) = []
  /\ (flagVerbose cl = false -> exists text, out (run (main cl)) = [text +:+ nl]).
Proof.
  intros Hgiven. rewrite run_paths. unfold paths.
  rewrite (required_given cl _ Hgiven).
  destruct (Parse (flagURL cl)) as [u|e];
    [|split; [done|intros _; exists ("UNKNOWN: " +:+ e); by rewrite append_assoc]].
  destruct (NewRequest "GET" (URLString (target u (Args cl)))) as [r|e];
    [|split; [done|intros _; exists ("UNKNOWN: " +:+ e); by rewrite append_assoc]].
  destruct (Do (client cl) (HeaderAdd r "password" (flagPassword cl))) as [res|e].
  - split; [done|]. intros Hq.
    destruct (dumps_quiet cl (HeaderAdd r "password" (flagPassword cl)) res Hq)
      as (-> & -> & ->).
    simpl. unfold verdict.
    destruct (Args cl).
    + exists ("OK: NSClient API reachable on " +:+ flagURL cl). simpl.
      by rewrite append_assoc.
    + destruct (elems (Payload (decoded cl res))); by eexists.
  - split; [done|]. intros Hq. unfold requestDump. rewrite Hq. simpl.
    exists ("UNKNOWN: " +:+ e). by rewrite append_assoc.
Qed.

Lemma severity_zero (code : string) :
  severity code = 0%Z <-> code <> "WARNING" /\ code <> "CRITICAL" /\ code <> "UNKNOWN".
Proof.
  unfold severity. repeat case_decide; subst; split; try done; intros (? & ? & ?); done.
Qed.

Lemma main_exit_zero cl :
  exitCode (run (main cl)) = 0%Z <->
  given cl
  /\ exists req res,
       exchange cl = Some (req, res)
       /\ (Args cl = []
           \/ Args cl <> []
              /\ exists entry rest,
                   elems (Payload (decoded cl res)) = entry :: rest
                   /\ Result entry <> "WARNING" /\ Result entry <> "CRITICAL"
                   /\ Result entry <> "UNKNOWN").
Proof.
  split.
  - rewrite run_paths. unfold paths.
    destruct (required_cases cl (mkProc [] [] [])) as [Hreq | [usage Hreq]];
      rewrite Hreq; [|done].
    assert (Hgiven : given cl).
    { destruct (decide (index false (seenFlags cl) "u" = true)) as [Hu|Hu];
        [destruct (decide (index false (seenFlags cl) "p" = true)) as [Hp|Hp]|];
        [by split| |];
        (destruct (required_missing cl (mkProc [] [] [])) as (? & ? & Hm);
         [by intros [? ?]|congruence]). }
    unfold exchange, request.
    destruct (Parse (flagURL cl)) as [u|e]; [|done].
    destruct (NewRequest "GET" (URLString (target u (Args cl)))) as [r|e]; [|done].
    destruct (Do (client cl) (HeaderAdd r "password" (flagPassword cl))) as [res|e];
      [|done].
    simpl. unfold verdict. intros Hzero. split; [done|].
    eexists _, res. split; [done|].
    destruct (Args cl) as [|a args]; [by left|right]. split; [done|].
    destruct (elems (Payload (decoded cl res))) as [|entry rest]; [done|].
    simpl in Hzero. apply severity_zero in Hzero. eauto.
  - intros (Hgiven & req & res & Hex & Hcase).
    rewrite (run_exchange cl req res Hgiven Hex). simpl. unfold verdict.
    destruct Hcase as [-> | (Hargs & entry & rest & Hpay & Hres)]; [done|].
    destruct (Args cl); [done|]. rewrite Hpay. simpl. by apply severity_zero.
Qed.

(** *** The whole run, [flag.Parse] included *)



Lemma parseArgs_positional n pre s post cl0 actual cl :
  (length pre <= n)%nat ->
  parseArgs cl0 actual pre = Parsed cl -> Args cl = [] -> positional s = true ->
  parseArgs cl0 actual (pre ++ s :: post) = Parsed (withArgs cl (s :: post)).
Proof.
  revert pre cl0 actual. induction n as [|n IH]; intros pre cl0 actual Hn Hpre Hargs Hs.
  { destruct pre; [|simpl in Hn; lia]. cbn [parseArgs] in Hpre. injection Hpre as <-.
    cbn [app parseArgs]. unfold positional in Hs. by rewrite Hs. }
  destruct pre as [|a rest].
  { cbn [parseArgs] in Hpre. injection Hpre as <-.
    cbn [app parseArgs]. unfold positional in Hs. by rewrite Hs. }
  simpl in Hn. rewrite <- app_comm_cons. revert Hpre.
  cbn [parseArgs].
  destruct ((String.length a <? 2)%nat
            || negb (bool_decide (String.get 0 a = Some "-"%char))) eqn:Hpos.
  { intros [= <-]. done. }
  set (numMinuses := if bool_decide (String.get 1 a = Some "-"%char)
                     then 2%nat else 1%nat) in *.
  destruct ((numMinuses =? 2)%nat && (String.length a =? 2)%nat) eqn:Hend.
  { intros [= <-]. simpl in Hargs. by subst rest. }
  set (name0 := substring numMinuses (String.length a - numMinuses) a) in *.
  destruct ((String.length name0 =? 0)%nat
            || bool_decide (String.get 0 name0 = Some "-"%char)
            || bool_decide (String.get 0 name0 = Some "="%char)) eqn:Hbad; [done|].
  destruct (nameValue name0) as [name value] eqn:Hnv.
  destruct (formal name) as [kind|] eqn:Hformal.
  2: { by destruct (bool_decide (name = "help") || bool_decide (name = "h")). }
  destruct kind, value as [v|];
    repeat match goal with
           | |- context [assign ?c ?a ?b] => destruct (assign c a b)
           end; try done;
    try (intros Hpre; apply IH; [lia|done..]).
  all: destruct rest as [|v rest']; [done|]; rewrite <- app_comm_cons;
    destruct (assign cl0 name v); [|done];
    intros Hpre; apply IH; [simpl in Hn; lia|done..].
Qed.


Lemma finish_visited cl0 actual args name :
  name ∈ visited (finish cl0 actual args) <-> name ∈ actual.
Proof. simpl. by rewrite merge_sort_Permutation, elem_of_elements. Qed.

Lemma parseArgs_visited n args cl0 actual cl name :
  (length args <= n)%nat -> parseArgs cl0 actual args = Parsed cl -> name ∈ visited cl ->
  name ∈ actual
  \/ exists s, s ∈ args /\ positional s = false /\ flagName s = name.
Proof.
  revert args cl0 actual. induction n as [|n IH]; intros args cl0 actual Hn.
  { destruct args; [|simpl in Hn; lia]. cbn [parseArgs]. intros [= <-] H.
    left. by apply finish_visited in H. }
  destruct args as [|s rest].
  { cbn [parseArgs]. intros [= <-] H. left. by apply finish_visited in H. }
  simpl in Hn.
  assert (Hrec : forall cl' rest', (length rest' <= n)%nat -> rest' ⊆ rest ->
             positional s = false -> forall name', flagName s = name' ->
             parseArgs cl' ({[name']} ∪ actual) rest' = Parsed cl -> name ∈ visited cl ->
             name ∈ actual
             \/ exists s0, s0 ∈ s :: rest /\ positional s0 = false /\ flagName s0 = name).
  { intros cl' rest' Hl Hsub Hp name' Hname' H Hin.
    destruct (IH rest' cl' _ Hl H Hin) as [[Heq%elem_of_singleton|Ha]%elem_of_union
                                          |(s0 & Hs0 & Hrest)].
    - right. exists s. split; [left|]. split; [done|]. by subst.
    - by left.
    - right. exists s0. split; [right; by apply Hsub|done]. }
  cbn [parseArgs].
  destruct ((String.length s <? 2)%nat
            || negb (bool_decide (String.get 0 s = Some "-"%char))) eqn:Hpos.
  { intros [= <-] H. left. by apply finish_visited in H. }
  set (numMinuses := if bool_decide (String.get 1 s = Some "-"%char)
                     then 2%nat else 1%nat) in *.
  destruct ((numMinuses =? 2)%nat && (String.length s =? 2)%nat) eqn:Hend.
  { intros [= <-] H. left. by apply finish_visited in H. }
  set (name0 := substring numMinuses (String.length s - numMinuses) s) in *.
  destruct ((String.length name0 =? 0)%nat
            || bool_decide (String.get 0 name0 = Some "-"%char)
            || bool_decide (String.get 0 name0 = Some "="%char)) eqn:Hbad; [done|].
  destruct (nameValue name0) as [name' value] eqn:Hnv.
  assert (Hname : flagName s = name').
  { unfold flagName. fold numMinuses. fold name0. by rewrite Hnv. }
  destruct (formal name') as [kind|] eqn:Hformal.
  2: { by destruct (bool_decide (name' = "help") || bool_decide (name' = "h")). }
  destruct kind, value as [v|];
    repeat match goal with
           | |- context [assign ?c ?a ?b] => destruct (assign c a b)
           | |- context [match rest with [] => _ | _ :: _ => _ end] =>
             destruct rest as [|v rest']
           end; try done;
    apply Hrec; simpl in *; try lia; try done.
  all: intros x Hx; by right.
Qed.

Lemma run_process arg0 arguments :
  run (process arg0 arguments) =
  match flagsOf arg0 arguments with
  | Parsed cl => run (main cl)
  | Help => mkOutcome 0 [] (usageOf arg0) [] []
  | Failed message => mkOutcome 2 [] ((message +:+ nl) :: usageOf arg0) [] []
  end.
Proof.
  unfold run, process, flagParse, flagsOf, mbind.
  by destruct (parseArgs (defaults arg0) ∅ arguments).
Qed.

(** When [flag.Parse] returns, the run gets past the check of the
    required flags exactly when both [-u] and [-p] are among the flags
    that were set, each of them named by an argument: then the check
    leaves the process as it was and the run writes nothing to standard
    error.  Without [-u] the process ends with status 3, nothing on
    standard output and the report of the missing [-u] on standard
    error, whether or not [-p] is missing too; with [-u] and without
    [-p] it reports [-p]. *)
Theorem required_flags arg0 arguments cl :
  flagsOf arg0 arguments = Parsed cl ->
  (given cl <-> "u" ∈ visited cl /\ "p" ∈ visited cl)
  /\ (forall name, name ∈ visited cl ->
      exists s, s ∈ arguments /\ positional s = false /\ flagName s = name)
  /\ (given cl -> forall p, required cl p = (Next tt, p))
  /\ ("u" ∈ visited cl -> "p" ∈ visited cl -> err (run (process arg0 arguments)) = [])
  /\ ("u" ∉ visited cl ->
      run (process arg0 arguments) = mkOutcome 3 [] (missing cl "u") [] [])
  /\ ("u" ∈ visited cl -> "p" ∉ visited cl ->
      run (process arg0 arguments) = mkOutcome 3 [] (missing cl "p") [] []).
Proof.
  intros Hcl. rewrite run_process, Hcl.
  destruct (main_required_flags cl) as (Hgiven & Hu & Hp).
  split; [done|]. split.
  { intros name Hname. unfold flagsOf in Hcl.
    destruct (parseArgs_visited _ arguments _ ∅ cl name (le_n _) Hcl Hname) as [H|H];
      [by apply elem_of_empty in H|done]. }
  split; [intros H p; by apply required_given|].
  split; [|done].
  intros Hvu Hvp. assert (Hg : given cl) by by apply Hgiven.
  by destruct (main_writes_once cl Hg) as [Herr _].
Qed.


(** Once [flag.Parse] has returned and the required flags are given,
    nothing is written to standard error, and a run that is not verbose
    writes to standard output once: one text that ends in a line feed. *)
Theorem one_write_when_quiet arg0 arguments cl :
  flagsOf arg0 arguments = Parsed cl -> given cl ->
  err (run (process arg0 arguments)) = []
  /\ (flagVerbose cl = false ->
      exists text, out (run (process arg0 arguments)) = [text +:+ nl]).
Proof.
  intros Hcl Hgiven. rewrite run_process, Hcl. by apply main_writes_once.
Qed.

(** Flags stand before the first positional argument: once an argument
    that is no flag is reached (or [--]), [flag.Parse] leaves it and all
    that follows as positional arguments, whatever they look like.  A
    [-v] after the command name is no verbose flag but a token of the
    query. *)
Theorem flags_come_first arg0 pre s post cl :
  flagsOf arg0 pre = Parsed cl -> Args cl = [] -> positional s = true ->
  flagsOf arg0 (pre ++ s :: post) = Parsed (withArgs cl (s :: post))
  /\ run (process arg0 (pre ++ s :: post)) = run (main (withArgs cl (s :: post)))
  /\ flagVerbose (withArgs cl (s :: post)) = flagVerbose cl
  /\ visited (withArgs cl (s :: post)) = visited cl
  /\ forall u, Url.Path (target u (Args (withArgs cl (s :: post)))) =
               Url.Path u +:+ "/query/" +:+ s.
Proof.
  intros Hpre Hargs Hs.
  assert (H : flagsOf arg0 (pre ++ s :: post) = Parsed (withArgs cl (s :: post))).
  { unfold flagsOf in *. by eapply parseArgs_positional. }
  split; [done|]. split; [by rewrite run_process, H|].
  split; [done|]. split; [done|].
  intros u. simpl. by destruct post.
Qed.

(** The exit status is 0 in three cases only: [flag.Parse] has printed
    the usage for [-h] or [-help]; or, after a completed HTTP call, the
    run is the reachability probe, or the first payload entry has a
    result string that is none of WARNING, CRITICAL and UNKNOWN, spelled
    exactly so. *)
Theorem exit_zero_iff arg0 arguments :
  exitCode (run (process arg0 arguments)) = 0%Z <->
  flagsOf arg0 arguments = Help
  \/ exists cl,
       flagsOf arg0 arguments = Parsed cl
       /\ given cl
       /\ exists req res,
            exchange cl = Some (req, res)
            /\ (Args cl = []
                \/ Args cl <> []
                   /\ exists entry rest,
                        elems (Payload (decoded cl res)) = entry :: rest
                        /\ Result entry <> "WARNING" /\ Result entry <> "CRITICAL"
                        /\ Result entry <> "UNKNOWN").
Proof.
  rewrite run_process.
  destruct (flagsOf arg0 arguments) as [cl| |message].
  - rewrite main_exit_zero. split.
    + intros H. right. by exists cl.
    + intros [?|(cl' & [= <-] & H)]; done.
  - split; [by left|done].
  - split; [done|]. by intros [?|(cl' & ? & _)].
Qed.

End Flags.

(** ** The client and the target *)

Section Client.

Context {W : World}.

(** The overall timeout and the timeout of the TLS handshake are the
    same [time.Duration]: the seconds of [-t] in nanoseconds, as long as
    they fit an [int64], that is for at most 9223372036 seconds; for a
    larger number up to twice that the product wraps around to a negative
    duration.  [-k] alone decides whether the certificate is verified. *)
Theorem timeouts_of_the_client cl :
  Timeout (client cl) = TLSHandshakeTimeout (Transport_ (client cl))
  /\ InsecureSkipVerify (Transport_ (client cl)) = flagInsecure cl
  /\ ((- maxSeconds <= flagTimeout cl <= maxSeconds)%Z ->
      Timeout (client cl) = (flagTimeout cl * 1000000000)%Z)
  /\ ((maxSeconds < flagTimeout cl <= 2 * maxSeconds)%Z ->
      (Timeout (client cl) = flagTimeout cl * 1000000000 - 2 ^ 64
       /\ Timeout (client cl) < 0)%Z).
Proof.
  unfold client, seconds, wrap64, Second, maxSeconds. simpl.
  split; [done|]. split; [done|]. split.
  - intros H. rewrite Z.mod_small by lia. lia.
  - intros H.
    replace (1000000000 * flagTimeout cl + 2 ^ 63)%Z
      with ((1000000000 * flagTimeout cl - 2 ^ 63) + 1 * 2 ^ 64)%Z by lia.
    rewrite Z_mod_plus_full, Z.mod_small by lia. lia.
Qed.

(** Of the parsed base URL, [main] changes the path and, with more than
    one positional argument, the query; scheme, user, host, fragment and
    the raw path stay as parsed.  With no or one positional argument a
    query of the base URL is kept; with more it is discarded, whatever it
    was. *)
Theorem target_keeps_the_base u u' args :
  Url.Scheme (target u args) = Url.Scheme u
  /\ Url.Opaque (target u args) = Url.Opaque u
  /\ Url.User (target u args) = Url.User u
  /\ Url.Host (target u args) = Url.Host u
  /\ Url.RawPath (target u args) = Url.RawPath u
  /\ Url.Fragment (target u args) = Url.Fragment u
  /\ (Url.Path (target u args) =
      Url.Path u +:+ match args with [] => "/" | arg0 :: _ => "/query/" +:+ arg0 end)
  /\ ((length args <= 1)%nat -> Url.RawQuery (target u args) = Url.RawQuery u)
  /\ ((2 <= length args)%nat ->
      Url.RawQuery (target u args) = Url.RawQuery (target u' args)).
Proof.
  destruct args as [|arg0 [|arg1 rest]]; simpl; repeat split; try done; lia.
Qed.

End Client.

(** ** The query string *)

Section Tokens.

Context {W : World}.

Lemma Add_lookup (ps : list (string * string)) (m : Url.Values) (k : string) :
  foldl (fun m kv => Url.Add m kv.1 kv.2) m ps !! k =
  match valuesOf k ps with
  | [] => m !! k
  | vs => Some (default [] (m !! k) ++ vs)
  end.
Proof.
  revert m. induction ps as [|[k' v'] ps IH]; intros m; [done|].
  simpl. rewrite IH. unfold Url.Add, valuesOf.
  destruct (decide (k' = k)) as [->|Hne].
  - rewrite lookup_insert_eq, filter_cons_True by done. rewrite fmap_cons.
    destruct ((filter (fun kv : string * string => kv.1 = k) ps).*2); simpl.
    + done.
    + by rewrite <- app_assoc.
  - by rewrite lookup_insert_ne, filter_cons_False by done.
Qed.

Lemma parameters_agree (ts1 ts2 : list string) :
  (forall k, valuesOf k (keyValue <$> ts1) = valuesOf k (keyValue <$> ts2)) ->
  foldl parameter ∅ ts1 = foldl parameter ∅ ts2.
Proof.
  intros H. rewrite !parameters_keyValues. apply map_eq. intros k.
  by rewrite !Add_lookup, H.
Qed.

(** The order of the tokens after the command name matters only among
    tokens with the same key: two argument lists that give every key the
    same values in the same order lead to the same URL. *)
Theorem query_ignores_token_order u arg0 ts1 ts2 :
  (forall k, valuesOf k (keyValue <$> ts1) = valuesOf k (keyValue <$> ts2)) ->
  target u (arg0 :: ts1) = target u (arg0 :: ts2).
Proof.
  intros H. pose proof (parameters_agree ts1 ts2 H) as Hp.
  destruct ts1 as [|t1 ts1], ts2 as [|t2 ts2]; [done| | |].
  - specialize (H (keyValue t2).1). unfold valuesOf in H.
    rewrite fmap_cons, filter_cons_True in H by done. done.
  - specialize (H (keyValue t1).1). unfold valuesOf in H.
    rewrite fmap_cons, filter_cons_True in H by done. done.
  - unfold target. by rewrite Hp.
Qed.

Lemma cut_trailing (sep : ascii) (a : string) :
  cut sep a = None -> cut sep (a +:+ String sep EmptyString) = Some (a, EmptyString).
Proof.
  induction a as [|c a IH]; intros H.
  - simpl. by rewrite Ascii.eqb_refl.
  - change (String c a +:+ String sep "") with (String c (a +:+ String sep "")).
    simpl in *. destruct (Ascii.eqb c sep); [done|].
    destruct (cut sep a) as [[? ?]|]; [done|]. by rewrite IH.
Qed.

(** A bare token and the same token with a trailing [=] are the same
    parameter: a key with an empty value (the case the FIXME at line 120
    asks about). *)
Theorem bare_token_is_empty_value (parameters : Url.Values) (a : string) :
  cut "=" a = None ->
  keyValue a = (a, EmptyString)
  /\ keyValue (a +:+ "=") = (a, EmptyString)
  /\ parameter parameters (a +:+ "=") = parameter parameters a
  /\ parameter parameters a = Url.Add parameters a EmptyString.
Proof.
  intros H. pose proof (cut_trailing "=" a H) as H'.
  assert (H1 : keyValue a = (a, EmptyString)) by (unfold keyValue; by rewrite H).
  assert (H2 : keyValue (a +:+ "=") = (a, EmptyString)) by (unfold keyValue; by rewrite H').
  rewrite !parameter_keyValue, H1, H2. done.
Qed.

(** A token is split at its first [=] only: what stands before it is the
    key, and all that follows, further [=] included, is the value. *)
Theorem token_splits_at_first_equals (parameters : Url.Values) (k v : string) :
  cut "=" k = None ->
  Strings.SplitN (k +:+ "=" +:+ v) "=" 2 = [k; v]
  /\ parameter parameters (k +:+ "=" +:+ v) = Url.Add parameters k v
  /\ default [] (parameter parameters (k +:+ "=" +:+ v) !! k) =
     default [] (parameters !! k) ++ [v].
Proof.
  intros H. pose proof (cut_first "=" k v H) as Hc.
  change (k +:+ "=" +:+ v) with (k +:+ String "=" v).
  assert (Hp : parameter parameters (k +:+ String "=" v) = Url.Add parameters k v).
  { rewrite parameter_keyValue. unfold keyValue. by rewrite Hc. }
  split; [by rewrite (SplitN_cut (k +:+ String "=" v) "="), Hc|].
  split; [done|].
  rewrite Hp. unfold Url.Add. by rewrite lookup_insert_eq.
Qed.

Lemma occurrences_append (c : ascii) (a b : string) :
  occurrences c (a +:+ b) = (occurrences c a + occurrences c b)%nat.
Proof. unfold occurrences. by rewrite bytes_append, filter_app, length_app. Qed.

Lemma upperhex_plain (c : ascii) :
  plain (Url.upperhex (N.shiftr (val c) 4)) = true
  /\ plain (Url.upperhex (N.land (val c) 15)) = true.
Proof. destruct c as [[] [] [] [] [] [] [] []]; split; reflexivity. Qed.

(** [url.QueryEscape] writes plain bytes only. *)
Lemma QueryEscape_plain (s : string) : forallb plain (bytes (Url.QueryEscape s)) = true.
Proof.
  induction s as [|c s IH]; [done|].
  simpl. destruct (Ascii.eqb c " "); [by simpl|].
  destruct (Url.shouldEscape c) eqn:E; simpl.
  - destruct (upperhex_plain c) as [-> ->]. by simpl.
  - unfold plain at 1. rewrite E. by simpl.
Qed.

Lemma plain_occurrences (c : ascii) (s : string) :
  plain c = false -> forallb plain (bytes s) = true -> occurrences c s = 0%nat.
Proof.
  intros Hc. unfold occurrences. induction (bytes s) as [|x l IH]; [done|].
  simpl. intros [Hx Hl]%andb_prop. rewrite filter_cons_False; [by apply IH|].
  intros ->. congruence.
Qed.

Lemma queryString_occurrences (ps : list (string * string)) :
  occurrences "=" (queryString ps) = length ps
  /\ occurrences "&" (queryString ps) = pred (length ps).
Proof.
  assert (He : forall x, occurrences "=" (Url.QueryEscape x) = 0%nat).
  { intros x. apply plain_occurrences; [done|apply QueryEscape_plain]. }
  assert (Ha : forall x, occurrences "&" (Url.QueryEscape x) = 0%nat).
  { intros x. apply plain_occurrences; [done|apply QueryEscape_plain]. }
  induction ps as [|[k v] ps [IH1 IH2]]; [done|].
  destruct ps as [|p ps].
  - simpl. rewrite !occurrences_append, !He, !Ha. done.
  - change (queryString ((k, v) :: p :: ps))
      with (Url.QueryEscape k +:+ "=" +:+ Url.QueryEscape v +:+ "&" +:+ queryString (p :: ps)).
    rewrite !occurrences_append, !He, !Ha, IH1, IH2. simpl. done.
Qed.

Lemma filter_first {A} (P : A -> Prop) `{forall x, Decision (P x)} (l : list A) x r :
  filter P l = x :: r ->
  exists a b, l = a ++ x :: b /\ filter P a = [] /\ filter P b = r.
Proof.
  induction l as [|y l IH]; [done|].
  destruct (decide (P y)) as [Hy|Hy].
  - rewrite filter_cons_True by done. intros [= -> <-]. by exists [], l.
  - rewrite filter_cons_False by done. intros (a & b & -> & Ha & Hb)%IH.
    exists (y :: a), b. split; [done|]. split; [|done].
    by rewrite filter_cons_False.
Qed.

(** Two lists of pairs that agree key by key hold the same pairs. *)
Lemma filters_Permutation (l1 l2 : list (string * string)) :
  (forall k, filter (fun kv => kv.1 = k) l1 = filter (fun kv => kv.1 = k) l2) ->
  l1 ≡ₚ l2.
Proof.
  revert l2. induction l1 as [|[k v] l1 IH]; intros l2 H.
  - destruct l2 as [|[k v] l2]; [done|].
    specialize (H k). by rewrite filter_cons_True in H.
  - pose proof (H k) as Hk. rewrite filter_cons_True in Hk by done.
    symmetry in Hk. apply filter_first in Hk as (a & b & -> & Ha & Hb).
    rewrite <- Permutation_middle. constructor. apply IH. intros k'.
    specialize (H k'). rewrite !filter_app in *.
    destruct (decide (k = k')) as [<-|Hne].
    + rewrite Ha. simpl. by rewrite Hb.
    + by rewrite !filter_cons_False in H by done.
Qed.

(** With more than one positional argument every token after the
    command name is in the query as one pair and nothing else is: the
    query has one [=] per token and one [&] between two pairs, since an
    escaped key or value has neither, only letters, digits, [-_.~], [+]
    and [%] escapes. *)
Theorem one_pair_per_token u arg0 arg1 rest :
  occurrences "=" (Url.RawQuery (target u (arg0 :: arg1 :: rest))) = S (length rest)
  /\ occurrences "&" (Url.RawQuery (target u (arg0 :: arg1 :: rest))) = length rest
  /\ (exists ps, ps ≡ₚ keyValue <$> arg1 :: rest
      /\ Url.RawQuery (target u (arg0 :: arg1 :: rest)) = queryString ps)
  /\ (forall x, forallb plain (bytes (Url.QueryEscape x)) = true)
  /\ plain "=" = false /\ plain "&" = false /\ plain " " = false
  /\ plain "?" = false /\ plain "#" = false /\ plain "/" = false.
Proof.
  change (Url.RawQuery (target u (arg0 :: arg1 :: rest)))
    with (Url.Encode (foldl parameter ∅ (arg1 :: rest))).
  rewrite Encode_queryString, parameters_keyValues.
  assert (Hp : encoded (foldl (fun m kv => Url.Add m kv.1 kv.2) ∅ (keyValue <$> arg1 :: rest))
               ≡ₚ keyValue <$> arg1 :: rest).
  { apply filters_Permutation. intros k.
    by rewrite encoded_filter, Add_values, filter_key, lookup_empty. }
  destruct (queryString_occurrences
              (encoded (foldl (fun m kv => Url.Add m kv.1 kv.2) ∅ (keyValue <$> arg1 :: rest))))
    as [-> ->].
  rewrite Hp, length_fmap. simpl.
  split; [done|]. split; [done|]. split; [by eexists|].
  split; [apply QueryEscape_plain|]. done.
Qed.

End Tokens.

(** ** Trimming *)

Section Trimming.

Lemma str_app (a b : list ascii) : str (a ++ b) = str a +:+ str b.
Proof.
  unfold str. induction a as [|c a IH]; [done|].
  simpl. rewrite IH. done.
Qed.

Lemma trimLeft_suffix (n : nat) (p : list ascii) :
  exists k, Strings.trimLeft n p = drop k p.
Proof.
  revert p. induction n as [|n IH]; intros p; [by exists 0%nat|].
  destruct p as [|c rest]; [by exists 0%nat|].
  cbn [Strings.trimLeft]. destruct (Utf8.DecodeRune (c :: rest)) as [r size].
  destruct (Unicode.IsSpace r); [|by exists 0%nat].
  destruct (IH (drop size (c :: rest))) as [k ->].
  exists (size + k)%nat. by rewrite drop_drop.
Qed.

Lemma trimRight_prefix (n : nat) (p : list ascii) :
  exists k, Strings.trimRight n p = take k p.
Proof.
  revert p. induction n as [|n IH]; intros p; [exists (length p); by rewrite take_ge|].
  destruct p as [|c rest]; [by exists 0%nat|].
  cbn [Strings.trimRight]. destruct (Utf8.DecodeLastRune (c :: rest)) as [r size].
  destruct (Unicode.IsSpace r); [|exists (length (c :: rest)); by rewrite take_ge].
  destruct (IH (take (length (c :: rest) - size) (c :: rest))) as [k ->].
  rewrite take_take. by eexists.
Qed.

Lemma DecodeRune_size (p : list ascii) : p <> [] -> (1 <= (Utf8.DecodeRune p).2)%nat.
Proof.
  destruct p as [|s0 rest]; [done|]. intros _. unfold Utf8.DecodeRune.
  destruct (Utf8.first (val s0)); simpl; try lia.
  repeat (first [ lia | match goal with
                        | |- context [if ?b then _ else _] => destruct b; simpl
                        | |- context [match ?l with [] => _ | _ :: _ => _ end] =>
                          destruct l; simpl
                        end ]).
Qed.

Lemma DecodeRune_ascii (c : ascii) (rest : list ascii) :
  (val c <? Utf8.RuneSelf)%N = true -> Utf8.DecodeRune (c :: rest) = (val c, 1%nat).
Proof.
  intros H. unfold Utf8.DecodeRune, Utf8.first. unfold Utf8.RuneSelf in H. by rewrite H.
Qed.

Lemma back_le (p : list ascii) (start n : nat) : (Utf8.back p start n <= start)%nat.
Proof.
  revert start. induction n as [|n IH]; intros [|start']; simpl; try lia.
  destruct (p !! start') as [c|]; [|lia].
  destruct (Utf8.RuneStart c); [lia|]. specialize (IH start'). lia.
Qed.

Lemma DecodeLastRune_size (p : list ascii) :
  p <> [] -> (1 <= (Utf8.DecodeLastRune p).2)%nat.
Proof.
  intros Hp. unfold Utf8.DecodeLastRune.
  destruct (length p) as [|start] eqn:Hlen; [by destruct p|].
  destruct (p !! start) as [c|] eqn:Hc.
  2: { apply lookup_ge_None in Hc. lia. }
  destruct (val c <? Utf8.RuneSelf)%N; [simpl; lia|].
  pose proof (back_le p start (Utf8.UTFMax - 1)) as Hb.
  set (start' := Utf8.back p start (Utf8.UTFMax - 1)) in *.
  pose proof (DecodeRune_size (drop start' p)) as Hs.
  destruct (Utf8.DecodeRune (drop start' p)) as [r size].
  destruct (start' + size =? S start)%nat eqn:E; simpl; [|lia].
  apply Hs. intros Hnil. apply (f_equal length) in Hnil.
  rewrite length_drop in Hnil. simpl in Hnil. lia.
Qed.

Lemma DecodeLastRune_ascii (p : list ascii) (c : ascii) :
  last p = Some c -> (val c <? Utf8.RuneSelf)%N = true ->
  Utf8.DecodeLastRune p = (val c, 1%nat).
Proof.
  intros Hl H. unfold Utf8.DecodeLastRune. rewrite last_lookup in Hl.
  destruct (length p) as [|start] eqn:E.
  - apply length_zero_iff_nil in E. by subst.
  - simpl in Hl. by rewrite Hl, H.
Qed.

Lemma trimLeft_head (n : nat) (p : list ascii) :
  (length p <= n)%nat ->
  forall c, head (Strings.trimLeft n p) = Some c -> blank c = false.
Proof.
  revert p. induction n as [|n IH]; intros p Hn c.
  { destruct p; [done|simpl in Hn; lia]. }
  destruct p as [|c0 rest]; [done|].
  pose proof (DecodeRune_size (c0 :: rest)) as Hs.
  pose proof (DecodeRune_ascii c0 rest) as Ha.
  cbn [Strings.trimLeft]. destruct (Utf8.DecodeRune (c0 :: rest)) as [r size].
  destruct (Unicode.IsSpace r) eqn:Hr.
  - apply IH. rewrite length_drop. simpl in *. specialize (Hs ltac:(done)). lia.
  - intros [= <-]. unfold blank. destruct (val c0 <? Utf8.RuneSelf)%N; [|done].
    specialize (Ha eq_refl). injection Ha as <- _. by rewrite Hr.
Qed.

Lemma trimRight_last (n : nat) (p : list ascii) :
  (length p <= n)%nat ->
  forall c, last (Strings.trimRight n p) = Some c -> blank c = false.
Proof.
  revert p. induction n as [|n IH]; intros p Hn c.
  { destruct p; [done|simpl in Hn; lia]. }
  destruct p as [|c0 rest]; [done|].
  pose proof (DecodeLastRune_size (c0 :: rest)) as Hs.
  pose proof (DecodeLastRune_ascii (c0 :: rest) c) as Ha.
  cbn [Strings.trimRight]. destruct (Utf8.DecodeLastRune (c0 :: rest)) as [r size].
  destruct (Unicode.IsSpace r) eqn:Hr.
  - apply IH. rewrite length_take. simpl in *. specialize (Hs ltac:(done)). lia.
  - intros Hl. unfold blank. destruct (val c <? Utf8.RuneSelf)%N; [|done].
    specialize (Ha Hl eq_refl). injection Ha as <- _. by rewrite Hr.
Qed.

(** A text that begins with an ASCII byte that is no white space is not
    trimmed on the left, and one that ends with such a byte not on the
    right. *)
Lemma trimLeft_fixed (n : nat) (c : ascii) (rest : list ascii) :
  (val c <? Utf8.RuneSelf)%N = true -> blank c = false ->
  Strings.trimLeft n (c :: rest) = c :: rest.
Proof.
  intros Ha Hb. destruct n as [|n]; [done|].
  cbn [Strings.trimLeft]. rewrite (DecodeRune_ascii c rest Ha).
  unfold blank in Hb. rewrite Ha in Hb. simpl in Hb. by rewrite Hb.
Qed.

Lemma trimRight_fixed (n : nat) (p : list ascii) (c : ascii) :
  last p = Some c -> (val c <? Utf8.RuneSelf)%N = true -> blank c = false ->
  Strings.trimRight n p = p.
Proof.
  intros Hl Ha Hb. destruct n as [|n]; [done|].
  destruct p as [|c0 rest]; [done|].
  cbn [Strings.trimRight]. rewrite (DecodeLastRune_ascii _ c Hl Ha).
  unfold blank in Hb. rewrite Ha in Hb. simpl in Hb. by rewrite Hb.
Qed.

Lemma TrimSpace_fixed (s : string) (c d : ascii) :
  head (bytes s) = Some c -> last (bytes s) = Some d ->
  (val c <? Utf8.RuneSelf)%N = true -> (val d <? Utf8.RuneSelf)%N = true ->
  blank c = false -> blank d = false ->
  Strings.TrimSpace s = s.
Proof.
  intros Hh Hl Hc Hd Hbc Hbd. unfold Strings.TrimSpace.
  destruct (bytes s) as [|c0 rest] eqn:E; [done|]. injection Hh as ->.
  rewrite (trimLeft_fixed _ c rest Hc Hbc), (trimRight_fixed _ _ d Hl Hd Hbd).
  rewrite <- E. apply string_of_list_ascii_of_string.
Qed.

(** [strings.TrimSpace] cuts a text out of its argument, and the text
    neither begins nor ends with an ASCII white-space byte; an argument
    that begins and ends with ASCII bytes that are no white space is
    returned as it is. *)
Theorem trimmed_text (s : string) :
  (exists a b, s = a +:+ Strings.TrimSpace s +:+ b)
  /\ (forall c, head (bytes (Strings.TrimSpace s)) = Some c -> blank c = false)
  /\ (forall c, last (bytes (Strings.TrimSpace s)) = Some c -> blank c = false)
  /\ (forall c d, head (bytes s) = Some c -> last (bytes s) = Some d ->
      (val c < Utf8.RuneSelf)%N -> (val d < Utf8.RuneSelf)%N ->
      blank c = false -> blank d = false -> Strings.TrimSpace s = s).
Proof.
  split; [|split; [|split]].
  - unfold Strings.TrimSpace.
    destruct (trimLeft_suffix (length (bytes s)) (bytes s)) as [k Hk]. rewrite Hk.
    destruct (trimRight_prefix (length (drop k (bytes s))) (drop k (bytes s))) as [j ->].
    exists (str (take k (bytes s))), (str (drop j (drop k (bytes s)))).
    rewrite <- !str_app, take_drop, take_drop.
    symmetry. apply string_of_list_ascii_of_string.
  - intros c. unfold Strings.TrimSpace, bytes at 1, str.
    rewrite list_ascii_of_string_of_list_ascii.
    set (q := Strings.trimLeft (length (bytes s)) (bytes s)).
    destruct (trimRight_prefix (length q) q) as [j ->].
    intros Hh. apply (trimLeft_head (length (bytes s)) (bytes s)); [done|].
    fold q. destruct q, j; done.
  - intros c. unfold Strings.TrimSpace, bytes at 1, str.
    rewrite list_ascii_of_string_of_list_ascii.
    by apply trimRight_last.
  - intros c d Hh Hl Hc Hd. apply (TrimSpace_fixed s c d Hh Hl); by apply N.ltb_lt.
Qed.

End Trimming.

(** ** Decoding a well-shaped reply *)

Section RoundTrip.

Import Json.

Ltac names :=
  repeat match goal with
         | |- context [matches ?a ?b] =>
           let r := eval vm_compute in (matches a b) in
           change (matches a b) with r
         end.

Lemma decode_elems_fresh {T} (zero : T) dec (doc : T -> value) (ok : T -> bool) xs s :
  (forall x s, ok x = true -> dec zero (doc x) s = (x, s)) ->
  forallb ok xs = true ->
  decode_elems zero dec [] (doc <$> xs) s = (xs, s).
Proof.
  intros Hdec. revert s. induction xs as [|x xs IH]; intros s H; [done|].
  simpl in H. apply andb_prop in H as [Hx Hxs].
  rewrite fmap_cons. simpl. unfold bind. by rewrite (Hdec x s Hx), (IH s Hxs).
Qed.

Lemma decode_slice_fresh {T} (zero : T) dec (doc : T -> value) (ok : T -> bool) sl s :
  (forall x s, ok x = true -> dec zero (doc x) s = (x, s)) ->
  whole ok sl = true ->
  decode_slice zero dec nilSlice (Array (doc <$> elems sl)) s = (sl, s).
Proof.
  intros Hdec H. unfold whole in H. apply andb_prop in H as [Hxs Hsp].
  destruct sl as [xs sp]. simpl in *. destruct sp; [|done].
  destruct xs as [|x xs]; [done|].
  rewrite fmap_cons. unfold decode_slice. rewrite <- fmap_cons. simpl app.
  unfold bind. by rewrite (decode_elems_fresh zero dec doc ok (x :: xs) s Hdec Hxs).
Qed.

Section Documents.

Context {toolchain : Decoder}.

Lemma decode_IntValue_document v s :
  carried_IntValue v = true ->
  decode_IntValue zeroIntValue (document_IntValue v) s = (v, s).
Proof.
  intros H. unfold carried_IntValue in H.
  destruct v as [a u b c d e]. simpl in H.
  repeat (apply andb_prop in H as [H ?]).
  unfold document_IntValue, decode_IntValue, decode_struct, zeroIntValue.
  destruct a, u, b, c, d, e; simpl in *;
    unfold field_IntValue; names; unfold bind, ret, decode_ptr, decode_float64, decode_string;
    simpl;
    repeat match goal with Hf : is_finite _ = true |- _ => rewrite Hf; clear Hf end;
    reflexivity.
Qed.

Lemma decode_Perf_document p s :
  carried_Perf p = true -> decode_Perf zeroPerf (document_Perf p) s = (p, s).
Proof.
  intros H. destruct p as [alias v]. unfold carried_Perf in H. simpl in H.
  unfold document_Perf, decode_Perf, decode_struct, decode_members, field_Perf.
  names. unfold bind, decode_string, ret.
  cbn -[decode_IntValue document_IntValue zeroIntValue].
  by rewrite (decode_IntValue_document v s H).
Qed.

Lemma decode_Line_document l s :
  carried_Line l = true -> decode_Line zeroLine (document_Line l) s = (l, s).
Proof.
  intros H. destruct l as [msg perfs]. unfold carried_Line in H. simpl in H.
  unfold document_Line, decode_Line, decode_struct, decode_members, field_Line.
  names. unfold bind, decode_string, ret.
  cbn -[decode_slice decode_Perf document_Perf zeroPerf nilSlice fmap].
  by rewrite (decode_slice_fresh zeroPerf decode_Perf document_Perf carried_Perf perfs s
                decode_Perf_document H).
Qed.

Lemma decode_PayloadEntry_document e s :
  carried_PayloadEntry e = true ->
  decode_PayloadEntry zeroPayloadEntry (document_PayloadEntry e) s = (e, s).
Proof.
  intros H. destruct e as [cmd lines result]. unfold carried_PayloadEntry in H. simpl in H.
  unfold document_PayloadEntry, decode_PayloadEntry, decode_struct, decode_members,
    field_PayloadEntry.
  names. unfold bind, decode_string, ret.
  cbn -[decode_slice decode_Line document_Line zeroLine nilSlice fmap].
  by rewrite (decode_slice_fresh zeroLine decode_Line document_Line carried_Line lines s
                decode_Line_document H).
Qed.

Lemma Decode_document q :
  carried q = true -> Decode (Some (document q)) zeroQuery = (q, None).
Proof.
  intros H. destruct q as [[source] payload]. unfold carried in H. simpl in H.
  unfold Decode, document, decode_Query, decode_struct, decode_members, field_Query.
  names. unfold bind, ret, decode_Header, decode_struct, decode_members, field_Header.
  names. unfold bind, decode_string, ret.
  cbn -[decode_slice decode_PayloadEntry document_PayloadEntry zeroPayloadEntry nilSlice fmap].
  by rewrite (decode_slice_fresh zeroPayloadEntry decode_PayloadEntry document_PayloadEntry
                carried_PayloadEntry payload None decode_PayloadEntry_document H).
Qed.

End Documents.

Section Reply.

Context {W : World}.

(** A reply that carries a structure under the tags of [Query] is decoded
    to that structure, without an error: what [main] then reads is the
    first entry of the structure, its result and its lines. *)
Theorem reply_round_trip (q : Query) :
  carried q = true ->
  Decode (Some (document q)) zeroQuery = (q, None)
  /\ (forall cl (res : Response), remaining cl res = Some (document q) -> decoded cl res = q)
  /\ (forall cl req res entry rest,
      given cl -> exchange cl = Some (req, res) -> Args cl <> [] ->
      remaining cl res = Some (document q) -> elems (Payload q) = entry :: rest ->
      exitCode (run (main cl)) = severity (Result entry)
      /\ last (out (run (main cl))) = Some (pluginLine entry +:+ nl)).
Proof.
  intros H. pose proof (Decode_document q H) as Hd.
  split; [done|]. split.
  { intros cl res Hb. unfold decoded. by rewrite Hb, Hd. }
  intros cl req res entry rest Hgiven Hex Hargs Hb Hq.
  rewrite (run_exchange cl req res Hgiven Hex). simpl.
  assert (Hv : verdict cl res = (severity (Result entry), pluginLine entry +:+ nl)).
  { unfold verdict, decoded. destruct (Args cl); [done|].
    rewrite Hb, Hd. cbn [fst]. by rewrite Hq. }
  rewrite Hv. simpl. split; [done|]. by rewrite !app_assoc, last_snoc.
Qed.

End Reply.

End RoundTrip.

(** ** A reply without a result *)

Section NoResult.

Context {W : World}.

Import Json.

Lemma decode_members_app {T} (field : string -> value -> T -> D T) a b v s :
  decode_members field (a ++ b) v s =
  decode_members field b (decode_members field a v s).1 (decode_members field a v s).2.
Proof.
  revert v s. induction a as [|[key j] a IH]; intros v s; [done|].
  simpl. unfold bind. destruct (field key j v s) as [v' s']. apply IH.
Qed.

Lemma field_Query_other key j v s :
  matches "payload" key = false -> Payload (field_Query key j v s).1 = Payload v.
Proof.
  intros H. unfold field_Query, bind, ret. rewrite H.
  destruct (matches "header" key); [|done].
  by destruct (decode_Header (Header_ v) j s).
Qed.

Lemma decode_members_other members v s :
  Forall (fun m => matches "payload" m.1 = false) members ->
  Payload (decode_members field_Query members v s).1 = Payload v.
Proof.
  intros H. revert v s. induction H as [|[key j] members Hkey _ IH]; intros v s; [done|].
  simpl. unfold bind. destruct (field_Query key j v s) as [v' s'] eqn:E.
  rewrite IH. change v' with (v', s').1. rewrite <- E. by apply field_Query_other.
Qed.

Lemma field_PayloadEntry_result key j v s :
  matches "result" key && match j with String_ _ => true | _ => false end = false ->
  Result (field_PayloadEntry key j v s).1 = Result v.
Proof.
  intros H. unfold field_PayloadEntry, bind, ret.
  destruct (matches "command" key).
  { by destruct (decode_string (Command v) j s). }
  destruct (matches "lines" key).
  { by destruct (decode_slice zeroLine decode_Line (Lines v) j s). }
  destruct (matches "result" key); [|done].
  by destruct j.
Qed.

Lemma decode_PayloadEntry_result j v s :
  saysResult j = false -> Result (decode_PayloadEntry v j s).1 = Result v.
Proof.
  destruct j as [| | | | |members]; try done.
  simpl. revert v s. induction members as [|[key j] members IH]; intros v s H; [done|].
  simpl in H. apply orb_false_elim in H as [Hm H].
  simpl. unfold bind. destruct (field_PayloadEntry key j v s) as [v' s'] eqn:E.
  rewrite (IH v' s' H). change v' with (v', s').1. rewrite <- E.
  by apply field_PayloadEntry_result.
Qed.

Lemma filter_none {A} (P : A -> Prop) `{forall x, Decision (P x)} (l : list A) :
  filter P l = [] -> Forall (fun x => ~ P x) l.
Proof.
  induction l as [|x l IH]; [done|].
  destruct (decide (P x)).
  - by rewrite filter_cons_True.
  - rewrite filter_cons_False by done. intros Hl. constructor; [done|by apply IH].
Qed.

(** An entry that says no result counts as OK: when the reply has one
    [payload] member, an array, and its first element is no object, or an
    object without a [result] member that is a string, the exit status
    is 0. *)
Theorem missing_result_is_ok cl req res members key first others :
  given cl -> exchange cl = Some (req, res) -> Args cl <> [] ->
  remaining cl res = Some (Object members) ->
  filter (fun m => matches "payload" m.1 = true) members = [(key, Array (first :: others))] ->
  saysResult first = false ->
  exitCode (run (main cl)) = 0%Z
  /\ exists entry rest, elems (Payload (decoded cl res)) = entry :: rest
                        /\ Result entry = EmptyString.
Proof.
  intros Hgiven Hex Hargs Hb Hf Hr.
  assert (Hkey : matches "payload" key = true).
  { assert (Hin : (key, Array (first :: others))
                  ∈ filter (fun m : string * value => matches "payload" m.1 = true) members)
      by (rewrite Hf; apply list_elem_of_here).
    by apply list_elem_of_filter in Hin as [? _]. }
  apply filter_first in Hf as (a & b & -> & Ha%filter_none & Hpost%filter_none).
  assert (Hother : forall l : list (string * value),
             Forall (fun x => ~ matches "payload" x.1 = true) l ->
             Forall (fun m => matches "payload" m.1 = false) l).
  { intros l Hl. eapply Forall_impl; [exact Hl|]. intros m Hm. by apply not_true_is_false. }
  apply Hother in Ha, Hpost.
  assert (Hdec : exists entry rest, elems (Payload (decoded cl res)) = entry :: rest
                                    /\ Result entry = EmptyString).
  { unfold decoded. rewrite Hb. unfold Decode, decode_Query, decode_struct.
    rewrite decode_members_app.
    pose proof (decode_members_other a zeroQuery None Ha) as Ea.
    destruct (decode_members field_Query a zeroQuery None) as [v' s']. cbn [fst snd] in *.
    cbn [decode_members]. unfold bind at 1.
    destruct (field_Query key (Array (first :: others)) v' s') as [v'' s''] eqn:E.
    rewrite (decode_members_other b v'' s'' Hpost).
    unfold field_Query in E.
    rewrite (matches_other "payload" "header" key) in E by done.
    rewrite Hkey, Ea in E. unfold bind, ret in E. cbn in E.
    pose proof (decode_PayloadEntry_result first zeroPayloadEntry s' Hr) as Ex.
    unfold bind, ret in E.
    destruct (decode_PayloadEntry zeroPayloadEntry first s') as [x s1].
    destruct (decode_elems zeroPayloadEntry decode_PayloadEntry [] others s1) as [xs s2].
    injection E as <- _. by exists x, xs. }
  split; [|done].
  destruct Hdec as (entry & rest & Hq & Hres).
  rewrite (run_exchange cl req res Hgiven Hex). simpl.
  unfold verdict. destruct (Args cl); [done|]. by rewrite Hq, Hres.
Qed.

End NoResult.

(** ** The performance data *)

Section Perfdata.

Context {W : World}.

Lemma tags_quoted (ps : list Perf) (t : string) (ts : list string) :
  omap tag ps = t :: ts -> exists r, t = String "'" r.
Proof.
  induction ps as [|p ps IH]; [done|].
  simpl. unfold tag at 1. destruct (Value (IntValue_ p)); [|exact IH].
  intros [= <- _]. by eexists.
Qed.

Lemma spaced_concat (t : string) (ts : list string) :
  spaced (t :: ts) = String " " (String.concat " " (t :: ts)).
Proof.
  revert t. induction ts as [|t' ts IH]; intros t.
  - simpl. by rewrite append_nil_r.
  - change (spaced (t :: t' :: ts)) with (" " +:+ t +:+ spaced (t' :: ts)).
    rewrite IH. reflexivity.
Qed.

Lemma TrimSpace_lead (x : string) (c d : ascii) :
  head (bytes x) = Some c -> last (bytes x) = Some d ->
  (val c <? Utf8.RuneSelf)%N = true -> (val d <? Utf8.RuneSelf)%N = true ->
  blank c = false -> blank d = false ->
  Strings.TrimSpace (String " " x) = x.
Proof.
  intros Hh Hl Hc Hd Hbc Hbd. unfold Strings.TrimSpace.
  change (bytes (String " " x)) with (" "%char :: bytes x).
  destruct (bytes x) as [|c0 rest] eqn:E; [done|]. injection Hh as ->.
  change (Strings.trimLeft (length (" "%char :: c :: rest)) (" "%char :: c :: rest))
    with (Strings.trimLeft (S (length rest)) (c :: rest)).
  rewrite (trimLeft_fixed _ c rest Hc Hbc), (trimRight_fixed _ _ d Hl Hd Hbd).
  rewrite <- E. apply string_of_list_ascii_of_string.
Qed.

(** The performance data are the tags joined by single spaces: when the
    last tag ends with an ASCII byte that is no white space (a digit of
    a number, a unit such as [%]), trimming takes away the space before
    the first tag and nothing else. *)
Theorem perfdata_is_space_joined cl req res entry rest t ts d :
  given cl -> exchange cl = Some (req, res) ->
  Args cl <> [] -> elems (Payload (decoded cl res)) = entry :: rest ->
  tags (Lines entry) = t :: ts ->
  last (bytes (String.concat " " (t :: ts))) = Some d ->
  (val d < Utf8.RuneSelf)%N -> blank d = false ->
  out (run (main cl)) =
    requestDump cl req ++ responseDump cl res
    ++ [message (Lines entry) +:+ "|" +:+ String.concat " " (t :: ts) +:+ nl].
Proof.
  intros Hgiven Hex Hargs Hpay Ht Hl Hd Hb.
  assert (Hline : pluginLine entry =
                  message (Lines entry) +:+ "|" +:+ String.concat " " (t :: ts)).
  { unfold pluginLine. rewrite Ht, spaced_concat.
    destruct (tags_quoted _ t ts Ht) as [r ->].
    assert (Hq : exists r', String.concat " " (String "'" r :: ts) = String "'" r').
    { destruct ts; by eexists. }
    destruct Hq as [r' Hq]. rewrite Hq in *.
    rewrite (TrimSpace_lead (String "'" r') "'" d); try done.
    by apply N.ltb_lt. }
  remember (String.concat " " (t :: ts)) as joined.
  rewrite (run_exchange cl req res Hgiven Hex). simpl.
  assert (Hv : verdict cl res = (severity (Result entry), pluginLine entry +:+ nl)).
  { unfold verdict. destruct (Args cl); [done|]. by rewrite Hpay. }
  assert (Hp : payloadDump cl res = []).
  { unfold payloadDump. destruct (Args cl); [done|]. by rewrite Hpay. }
  rewrite Hv, Hp, Hline. simpl. by rewrite !append_assoc.
Qed.

End Perfdata.

(** ** Further examples *)

Section FurtherExamples.

Import Stub.

#[local] Existing Instance classic.

Lemma required_flags_witness :
  run (@process (world (inr None)) "nscrestc" ["-p"; "secret"; "-v"; "check_cpu"]) =
  mkOutcome 3 []
    ["UNKNOWN: Missing required -u argument" +:+ nl; "Usage of nscrestc:" +:+ nl; EmptyString]
    [] [].
Proof.
  edestruct (@required_flags (world (inr None)) "nscrestc"
               ["-p"; "secret"; "-v"; "check_cpu"]) as (_ & _ & _ & _ & E & _);
    [vm_compute; reflexivity|].
  apply E. apply (bool_decide_unpack _). vm_compute. exact I.
Defined.

Lemma flags_come_first_witness :
  @flagsOf (world (inr None)) "nscrestc"
    ["-u"; "https://10.1.2.3:8443"; "-p"; "secret"; "check_cpu"; "-v"; "warn=80"] =
  Parsed (commandLine false ["check_cpu"; "-v"; "warn=80"])
  /\ Url.RawQuery (target (Url.mkURL "https" "" None "10.1.2.3:8443" "" "" "" "")
                    ["check_cpu"; "-v"; "warn=80"]) = "-v=&warn=80".
Proof.
  split; [|vm_compute; reflexivity].
  refine (proj1 (@flags_come_first (world (inr None)) "nscrestc"
                   ["-u"; "https://10.1.2.3:8443"; "-p"; "secret"] "check_cpu"
                   ["-v"; "warn=80"] (commandLine false []) _ _ _)).
  - vm_compute. reflexivity.
  - reflexivity.
  - reflexivity.
Defined.

Lemma one_write_when_quiet_witness :
  err (run (@process (world (inr (Some severe))) "nscrestc"
              ["-u"; "https://10.1.2.3:8443"; "-p"; "secret"; "check_cpu"])) = []
  /\ length (out (run (@process (world (inr (Some severe))) "nscrestc"
                         ["-u"; "https://10.1.2.3:8443"; "-p"; "secret"; "check_cpu"])))
     = 1%nat.
Proof.
  destruct (@one_write_when_quiet (world (inr (Some severe))) "nscrestc"
              ["-u"; "https://10.1.2.3:8443"; "-p"; "secret"; "check_cpu"]
              (commandLine false ["check_cpu"])) as [E1 E2];
    [vm_compute; reflexivity | split; reflexivity |].
  split; [exact E1|]. destruct (E2 eq_refl) as [text ->]. reflexivity.
Defined.

Lemma query_ignores_token_order_witness :
  target (Url.mkURL "https" "" None "10.1.2.3:8443" "" "" "" "")
    ["check_drivesize"; "warn=80"; "drive=c"; "drive=d"] =
  target (Url.mkURL "https" "" None "10.1.2.3:8443" "" "" "" "")
    ["check_drivesize"; "drive=c"; "drive=d"; "warn=80"].
Proof.
  apply query_ignores_token_order. intros k. unfold valuesOf.
  change (keyValue <$> ["warn=80"; "drive=c"; "drive=d"])
    with [("warn", "80"); ("drive", "c"); ("drive", "d")].
  change (keyValue <$> ["drive=c"; "drive=d"; "warn=80"])
    with [("drive", "c"); ("drive", "d"); ("warn", "80")].
  rewrite !filter_cons, !filter_nil. simpl.
  destruct (decide ("warn" = k)) as [<-|]; [reflexivity|].
  destruct (decide ("drive" = k)); reflexivity.
Defined.

Lemma bare_token_is_empty_value_witness :
  keyValue "show-all=" = ("show-all", EmptyString)
  /\ parameter ∅ "show-all=" = parameter ∅ "show-all".
Proof.
  destruct (bare_token_is_empty_value ∅ "show-all" eq_refl) as (_ & E2 & E3 & _).
  split; [exact E2 | exact E3].
Defined.

Lemma token_splits_at_first_equals_witness :
  Strings.SplitN "filter=level=error" "=" 2 = ["filter"; "level=error"]
  /\ parameter ∅ "filter=level=error" = Url.Add ∅ "filter" "level=error".
Proof.
  destruct (token_splits_at_first_equals ∅ "filter" "level=error" eq_refl) as (E1 & E2 & _).
  split; [exact E1 | exact E2].
Defined.

Lemma reply_round_trip_witness :
  Json.Decode
    (Some (document
       (mkQuery (mkHeader "agent")
          (Slice [mkPayloadEntry "check_drivesize"
                    (Slice [mkLine "disk low"
                              (Slice [mkPerf "used"
                                        (mkIntValue (Some 95.5%float) (Some "%")
                                           (Some 80%float) (Some 90%float) None None)] [])]
                       [])
                    "WARNING"] []))))
    zeroQuery =
  (mkQuery (mkHeader "agent")
     (Slice [mkPayloadEntry "check_drivesize"
               (Slice [mkLine "disk low"
                         (Slice [mkPerf "used"
                                   (mkIntValue (Some 95.5%float) (Some "%")
                                      (Some 80%float) (Some 90%float) None None)] [])]
                  [])
               "WARNING"] []),
   None).
Proof.
  refine (proj1 (@reply_round_trip (world (inr None)) _ _)). reflexivity.
Defined.

Lemma missing_result_is_ok_witness :
  exitCode
    (run (@main
            (world (inr (Some (Json.Object
               [("payload", Json.Array [Json.Object [("command", Json.String_ "check_cpu")]])]))))
            (commandLine false ["check_cpu"]))) = 0%Z.
Proof.
  edestruct (@missing_result_is_ok
               (world (inr (Some (Json.Object
                  [("payload",
                    Json.Array [Json.Object [("command", Json.String_ "check_cpu")]])]))))
               (commandLine false ["check_cpu"])) as [E _];
    [split; reflexivity | reflexivity | done | reflexivity | reflexivity | reflexivity | ].
  exact E.
Defined.

Lemma perfdata_is_space_joined_witness :
  out (run (@main (world (inr (Some twoLines))) (commandLine false ["check_drivesize"]))) =
  ["disk d low|'c'=12 'd'=95.5%;90;100" +:+ nl].
Proof.
  etransitivity.
  - eapply (@perfdata_is_space_joined (world (inr (Some twoLines)))
              (commandLine false ["check_drivesize"]));
      [split; reflexivity | reflexivity | done | reflexivity
      | vm_compute; reflexivity | vm_compute; reflexivity | reflexivity | reflexivity].
  - vm_compute. reflexivity.
Defined.

End FurtherExamples.
